(** * NeuralChunk: a shallow embedding of [src/lib/neural-chunk.js]

    The development follows the JavaScript class method by method.

    - JavaScript numbers are modelled by [Number]: an exact rational or
      one of the three non-finite values.  Rounding of doubles is not
      modelled, and the two zeros are identified.  The arithmetic of
      the model is that of the doubles wherever operands and results
      are safe integers ([safeInteger], at most [2^53 - 1] in absolute
      value): such sums and differences are exact, and the floor of the
      quotient of two of them is the floor of the exact quotient.
      Statements about computed integers carry that bound.
    - An instance of [NeuralChunk] is a record; a method is a function
      from the receiver to the receiver after the call and a completion
      (a returned value or a thrown exception), so that a mutation made
      before a [throw] is still visible afterwards.
    - The nested object [this.neurons] is a finite map of finite maps of
      finite maps; the array [this.rawNeurons] is a list. *)

From Stdlib Require Import ZArith QArith Qcanon Qround Lqa String Ascii.
From stdpp Require Import base numbers countable gmap strings list.

Local Open Scope Z_scope.

(** ** JavaScript numbers *)

Module JSNumber.

Inductive Number : Type :=
  | Fin (q : Qc)
  | PosInfinity
  | NegInfinity
  | NaN.

#[global] Instance Number_eq_dec : EqDecision Number.
Proof. solve_decision. Defined.

Definition Number_to_sum (n : Number) : Qc + nat :=
  match n with
  | Fin q => inl q
  | PosInfinity => inr 0%nat
  | NegInfinity => inr 1%nat
  | NaN => inr 2%nat
  end.

Definition Number_of_sum (s : Qc + nat) : Number :=
  match s with
  | inl q => Fin q
  | inr 0%nat => PosInfinity
  | inr 1%nat => NegInfinity
  | inr _ => NaN
  end.

#[global] Instance Number_countable : Countable Number.
Proof.
  apply (inj_countable' Number_to_sum Number_of_sum).
  intros []; reflexivity.
Defined.

(** An integer literal, or an integer held in a number. *)
Definition int (n : Z) : Number := Fin (Q2Qc (inject_Z n)).

(** A decimal literal [n/d], such as [0.2 = 1/5]. *)
Definition frac (n : Z) (d : positive) : Number := Fin (Q2Qc (n # d)).

Definition Qc_is_zero (q : Qc) : bool := bool_decide (q = 0%Qc).
Definition Qc_is_neg (q : Qc) : bool := bool_decide (q < 0)%Qc.

(** [a + b], exact: the sum of the doubles when the operands and the
    sum are safe integers. *)
Definition add (a b : Number) : Number :=
  match a, b with
  | NaN, _ | _, NaN => NaN
  | Fin p, Fin q => Fin (p + q)%Qc
  | PosInfinity, NegInfinity | NegInfinity, PosInfinity => NaN
  | PosInfinity, _ | _, PosInfinity => PosInfinity
  | NegInfinity, _ | _, NegInfinity => NegInfinity
  end.

(** [a - b], exact: the difference of the doubles when the operands and
    the difference are safe integers. *)
Definition sub (a b : Number) : Number :=
  match a, b with
  | NaN, _ | _, NaN => NaN
  | Fin p, Fin q => Fin (p - q)%Qc
  | PosInfinity, PosInfinity | NegInfinity, NegInfinity => NaN
  | PosInfinity, _ | _, NegInfinity => PosInfinity
  | NegInfinity, _ | _, PosInfinity => NegInfinity
  end.

(** [a / b], exact; a zero divisor is the positive zero.  For safe
    integers the floor of this quotient is the floor of the quotient of
    the doubles. *)
Definition div (a b : Number) : Number :=
  match a, b with
  | NaN, _ | _, NaN => NaN
  | Fin p, Fin q =>
      if Qc_is_zero q then
        if Qc_is_zero p then NaN
        else if Qc_is_neg p then NegInfinity else PosInfinity
      else Fin (p / q)%Qc
  | Fin _, (PosInfinity | NegInfinity) => Fin 0%Qc
  | (PosInfinity | NegInfinity), (PosInfinity | NegInfinity) => NaN
  | PosInfinity, Fin q => if Qc_is_neg q then NegInfinity else PosInfinity
  | NegInfinity, Fin q => if Qc_is_neg q then PosInfinity else NegInfinity
  end.

(** [Math.floor(a)] *)
Definition floor (a : Number) : Number :=
  match a with
  | Fin q => int (Qfloor q)
  | _ => a
  end.

(** [a < b]; every comparison with [NaN] is false. *)
Definition lt (a b : Number) : bool :=
  match a, b with
  | NaN, _ | _, NaN => false
  | Fin p, Fin q => bool_decide (p < q)%Qc
  | NegInfinity, NegInfinity => false
  | NegInfinity, _ => true
  | _, NegInfinity => false
  | PosInfinity, _ => false
  | Fin _, PosInfinity => true
  end.

End JSNumber.

Import JSNumber.

Declare Scope js_scope.
Delimit Scope js_scope with js.
Bind Scope js_scope with Number.
Infix "+" := add : js_scope.
Infix "-" := sub : js_scope.
Infix "/" := div : js_scope.
Infix "<?" := lt : js_scope.

(** ** The collaborators [Vector3Int] and [Neuron] *)

(** Modelled from the spec: the class [Vector3Int] of [./vector3Int] is
    not part of the sources.  The spec describes it as a triple of
    numbers with componentwise equality, built by
    [new Vector3Int(x, y, z)]. *)
Record Vector3Int : Type := mkVector3Int {
  vx : Number;
  vy : Number;
  vz : Number
}.

#[global] Instance Vector3Int_eq_dec : EqDecision Vector3Int.
Proof. solve_decision. Defined.

(** [new Vector3Int(x, y, z)] with integer literals. *)
Definition vector3 (a b c : Z) : Vector3Int :=
  mkVector3Int (int a) (int b) (int c).

(** ** Completions *)

(** The template literal thrown by [addNeuron] is determined by the
    three interpolated coordinates; [TypeError] is what reading a
    property of [undefined] raises. *)
Inductive Exception : Type :=
  | NeuronCollision (x y z : Number)
  | TypeError.

Inductive Completion (A : Type) : Type :=
  | Normal (v : A)
  | Throw (e : Exception).
Arguments Normal {A} v.
Arguments Throw {A} e.

(** Code that neither reads nor writes a receiver runs in the completion
    monad; stdpp's [x ← m; k] notation is used for sequencing. *)
#[global] Instance Completion_ret : MRet Completion := @Normal.
#[global] Instance Completion_bind : MBind Completion := λ A B f m,
  match m with
  | Normal v => f v
  | Throw e => Throw e
  end.

(** [arr.push(v)] *)
Definition push {A : Type} (arr : list A) (v : A) : list A := arr ++ [v].

(** ** Static methods: chunk addressing *)

Section Addressing.
Local Open Scope js_scope.

(** [static getChunkPositionFromWorldPosition(v3, chunkSize, worldSize)] *)
Definition getChunkPositionFromWorldPosition
    (v3 : Vector3Int) (chunkSize worldSize : Number) : Completion Vector3Int :=
  let chunkXCoordinate := floor ((vx v3 + worldSize) / chunkSize) in
  let chunkYCoordinate := floor ((vy v3 + worldSize) / chunkSize) in
  let chunkZCoordinate := floor ((vz v3 + worldSize) / chunkSize) in
  mret (mkVector3Int chunkXCoordinate chunkYCoordinate chunkZCoordinate).

(** The six boundary flags computed at lines 185-207 of the source. *)
Record BoundaryFlags : Type := mkBoundaryFlags {
  isXNearLeftBoundary : bool;
  isXNearRightBoundary : bool;
  isYNearBottomBoundary : bool;
  isYNearTopBoundary : bool;
  isZNearBackBoundary : bool;
  isZNearFrontBoundary : bool
}.

(** The value the source names [xCoordinateChunkDecimal] (and its Y and
    Z siblings).  The quotient [floatingChunkCoordinateOf_] is computed
    and then not used: the subtraction is applied to the position. *)
Definition coordinateChunkDecimal
    (axis worldSizeOffset chunkSize : Number) : Number :=
  let positionInChunkWorldCoordinates := axis + worldSizeOffset in
  let floatingChunkCoordinate := positionInChunkWorldCoordinates / chunkSize in
  positionInChunkWorldCoordinates - floor positionInChunkWorldCoordinates.

Definition boundaryFlags
    (position : Vector3Int) (worldSizeOffset chunkSize edgeDistanceThreshold : Number)
    : BoundaryFlags :=
  let xCoordinateChunkDecimal :=
    coordinateChunkDecimal (vx position) worldSizeOffset chunkSize in
  let yCoordinateChunkDecimal :=
    coordinateChunkDecimal (vy position) worldSizeOffset chunkSize in
  let zCoordinateChunkDecimal :=
    coordinateChunkDecimal (vz position) worldSizeOffset chunkSize in
  {| isXNearLeftBoundary := xCoordinateChunkDecimal <? edgeDistanceThreshold;
     isXNearRightBoundary := (int 1 - xCoordinateChunkDecimal) <? edgeDistanceThreshold;
     isYNearBottomBoundary := yCoordinateChunkDecimal <? edgeDistanceThreshold;
     isYNearTopBoundary := (int 1 - yCoordinateChunkDecimal) <? edgeDistanceThreshold;
     isZNearBackBoundary := zCoordinateChunkDecimal <? edgeDistanceThreshold;
     isZNearFrontBoundary := (int 1 - zCoordinateChunkDecimal) <? edgeDistanceThreshold |}.

(** The pushes of lines 209-306, in source order, onto [arr]. *)
Definition gatherEdgeChunks
    (f : BoundaryFlags) (thisChunkPosition : Vector3Int) (arr : list Vector3Int)
    : list Vector3Int :=
  let cx := vx thisChunkPosition in
  let cy := vy thisChunkPosition in
  let cz := vz thisChunkPosition in
  let one := int 1 in
  (* the Y partner of an X or Z neighbour *)
  let withY (ax az : Number) (arr : list Vector3Int) :=
    if isYNearTopBoundary f then push arr (mkVector3Int ax (cy + one) az)
    else if isYNearBottomBoundary f then push arr (mkVector3Int ax (cy - one) az)
    else arr in
  (* Gather left or right chunk if necessary *)
  let arr :=
    if isXNearLeftBoundary f then
      withY (cx - one) cz (push arr (mkVector3Int (cx - one) cy cz))
    else if isXNearRightBoundary f then
      withY (cx + one) cz (push arr (mkVector3Int (cx + one) cy cz))
    else arr in
  (* Gather top or bottom chunk if necessary *)
  let arr :=
    if isYNearBottomBoundary f then push arr (mkVector3Int cx (cy - one) cz)
    else if isYNearTopBoundary f then push arr (mkVector3Int cx (cy + one) cz)
    else arr in
  (* Gather front or back chunk if necessary *)
  let arr :=
    if isZNearBackBoundary f then
      withY cx (cz - one) (push arr (mkVector3Int cx cy (cz - one)))
    else if isZNearFrontBoundary f then
      withY cx (cz + one) (push arr (mkVector3Int cx cy (cz + one)))
    else arr in
  (* RIGHT-FRONT corner *)
  let arr :=
    if isXNearRightBoundary f && isZNearFrontBoundary f then
      withY (cx + one) (cz + one) (push arr (mkVector3Int (cx + one) cy (cz + one)))
    else arr in
  (* LEFT-FRONT corner *)
  let arr :=
    if isXNearLeftBoundary f && isZNearFrontBoundary f then
      withY (cx - one) (cz + one) (push arr (mkVector3Int (cx - one) cy (cz + one)))
    else arr in
  (* RIGHT-BACK corner *)
  let arr :=
    if isXNearRightBoundary f && isZNearBackBoundary f then
      withY (cx + one) (cz - one) (push arr (mkVector3Int (cx + one) cy (cz - one)))
    else arr in
  (* LEFT-BACK corner *)
  let arr :=
    if isXNearLeftBoundary f && isZNearBackBoundary f then
      withY (cx - one) (cz - one) (push arr (mkVector3Int (cx - one) cy (cz - one)))
    else arr in
  arr.

(** [static getChunkPositionsFromPointEdgeCases(point, worldSize,
    chunkSize, edgeDistanceThreshold)] *)
Definition getChunkPositionsFromPointEdgeCases
    (point : Vector3Int) (worldSize chunkSize edgeDistanceThreshold : Number)
    : Completion (list Vector3Int) :=
  let position := point in
  let edgeChunkCoordinatesCloseby : list Vector3Int := [] in
  thisChunkPosition ← getChunkPositionFromWorldPosition point chunkSize worldSize;
  let worldSizeOffset := worldSize in
  let flags := boundaryFlags position worldSizeOffset chunkSize edgeDistanceThreshold in
  mret (gatherEdgeChunks flags thisChunkPosition edgeChunkCoordinatesCloseby).

End Addressing.

(** ** The class [NeuralChunk] *)

(** Modelled from the spec: the class [Neuron] is not part of the
    sources.  A unit owns a world position, read through
    [getPositionAsVector3Int()], and a payload [data] that the chunk
    compares with the empty string.  [neuronRef] stands for the identity
    of the object. *)
Record Neuron : Type := mkNeuron {
  neuronRef : nat;
  neuronPosition : Vector3Int;
  data : string
}.

#[global] Instance Neuron_eq_dec : EqDecision Neuron.
Proof. solve_decision. Defined.

Definition getPositionAsVector3Int (neuron : Neuron) : Vector3Int :=
  neuronPosition neuron.

Record NeuralChunk : Type := mkNeuralChunk {
  neurons : gmap Number (gmap Number (gmap Number Neuron));
  rawNeurons : list Neuron;
  x : Number;
  y : Number;
  z : Number
}.

(** [constructor(x, y, z)] *)
Definition constructor (x0 y0 z0 : Number) : NeuralChunk :=
  {| neurons := ∅; rawNeurons := []; x := x0; y := y0; z := z0 |}.

(** A method: the receiver before the call to the receiver after it and
    the completion of the call. *)
Definition Method (A : Type) : Type := NeuralChunk → NeuralChunk * Completion A.

#[global] Instance Method_ret : MRet Method := λ A v this, (this, Normal v).
#[global] Instance Method_bind : MBind Method := λ A B f m this,
  match m this with
  | (this', Normal v) => f v this'
  | (this', Throw e) => (this', Throw e)
  end.

(** Reading [this], writing its two mutable fields, and [throw]. *)
Definition getThis : Method NeuralChunk := λ this, (this, Normal this).
Definition throw {A : Type} (e : Exception) : Method A := λ this, (this, Throw e).
Definition setNeurons
    (m : gmap Number (gmap Number (gmap Number Neuron))) : Method unit :=
  λ this, ({| neurons := m; rawNeurons := rawNeurons this;
              x := x this; y := y this; z := z this |}, Normal tt).
Definition setRawNeurons (l : list Neuron) : Method unit :=
  λ this, ({| neurons := neurons this; rawNeurons := l;
              x := x this; y := y this; z := z this |}, Normal tt).

(** [k in obj] for an object used as a map with numeric keys. *)
Definition hasKey {V : Type} (k : Number) (obj : gmap Number V) : bool :=
  bool_decide (is_Some (obj !! k)).

(** [obj[k]] where the value is used as an object straight away: an
    absent property reads as [undefined], and using that raises
    [TypeError]. *)
Definition member {V : Type} (obj : gmap Number V) (k : Number) : Method V :=
  match obj !! k with
  | Some v => mret v
  | None => throw TypeError
  end.

(** [addNeuron(neuron)] *)
Definition addNeuron (neuron : Neuron) : Method unit :=
  let neuronPosition := getPositionAsVector3Int neuron in
  let x := vx neuronPosition in
  let y := vy neuronPosition in
  let z := vz neuronPosition in
  this ← getThis;
  setRawNeurons (push (rawNeurons this) neuron);;
  (* Create the properties of the object if they do not exist *)
  this ← getThis;
  (if negb (hasKey x (neurons this))
   then setNeurons (<[x := ∅]> (neurons this))
   else mret tt);;
  this ← getThis;
  row ← member (neurons this) x;
  (if negb (hasKey y row)
   then setNeurons (<[x := <[y := ∅]> row]> (neurons this))
   else mret tt);;
  (* Does a neuron already exist at this point? *)
  this ← getThis;
  row ← member (neurons this) x;
  column ← member row y;
  if hasKey z column then throw (NeuronCollision x y z)
  else
    setNeurons (<[x := <[y := <[z := neuron]> column]> row]> (neurons this));;
    mret tt.

(** [getNeuronFromPosition(position)]; [None] is [undefined]. *)
Definition getNeuronFromPosition (position : Vector3Int) : Method (option Neuron) :=
  this ← getThis;
  if hasKey (vx position) (neurons this) then
    row ← member (neurons this) (vx position);
    if hasKey (vy position) row then
      column ← member row (vy position);
      if hasKey (vz position) column then
        neuron ← member column (vz position);
        mret (Some neuron)
      else mret None
    else mret None
  else mret None.

(** *** Converting [this.rawNeurons] to a number

    [i < this.rawNeurons] compares a number with an array.  The array is
    converted to a primitive by [Array.prototype.toString], that is
    [join(",")] of the elements converted to strings, and the resulting
    string is converted to a number. *)

(** Modelled from the spec: [Neuron] declares no [toString] or [valueOf]
    that the spec knows of (a unit is opaque but for its position and its
    payload), so a unit converts to a string as every plain object
    does. *)
Definition Neuron_toString (neuron : Neuron) : string := "[object Object]".

Definition Array_toString (arr : list Neuron) : string :=
  String.concat "," (map Neuron_toString arr).

Definition isWhiteSpace (c : ascii) : bool :=
  bool_decide (c ∈ [" "; "009"; "010"; "011"; "012"; "013"]%char).

Fixpoint skipWhiteSpace (s : string) : string :=
  match s with
  | EmptyString => EmptyString
  | String c s' => if isWhiteSpace c then skipWhiteSpace s' else s
  end.

Definition digitValue (c : ascii) : option Z :=
  let n := Z.of_nat (nat_of_ascii c) in
  if bool_decide (48 ≤ n ≤ 57) then Some (n - 48) else None.

(** Decimal digits, then white space only. *)
Fixpoint parseDigits (acc : Z) (s : string) : option Z :=
  match s with
  | EmptyString => Some acc
  | String c s' =>
      match digitValue c with
      | Some d => parseDigits (10 * acc + d) s'
      | None => if bool_decide (skipWhiteSpace s = EmptyString) then Some acc else None
      end
  end.

(** [Number(s)] for the strings this class converts: white space is
    trimmed, the empty string is [0], a run of decimal digits is its
    value, and a string that starts with any character that is neither
    white space nor a digit (such as the bracket that starts the string
    of an object) is [NaN].  Signs, fractions, exponents, radix
    prefixes and [Infinity] are not covered. *)
Definition StringToNumber (s : string) : Number :=
  match skipWhiteSpace s with
  | EmptyString => int 0
  | t => match parseDigits 0 t with
         | Some n => int n
         | None => NaN
         end
  end.

Definition Array_toNumber (arr : list Neuron) : Number :=
  StringToNumber (Array_toString arr).

Definition liftCompletion {A : Type} (c : Completion A) : Method A :=
  λ this, (this, c).

(** The [for] loop of [hasEmptyNeurons] from index [i] on; [rest] is
    [this.rawNeurons] without its first [i] elements, so that
    [this.rawNeurons[i]] is the head of [rest], or [undefined] when
    [rest] is empty.  [limit] is the right operand of the loop test. *)
Fixpoint hasEmptyNeurons_for (i : nat) (rest : list Neuron) (limit : Number)
    : Completion bool :=
  if (int (Z.of_nat i) <? limit)%js then
    match rest with
    | [] => Throw TypeError
    | neuron :: rest' =>
        if String.eqb (data neuron) "" then Normal true
        else hasEmptyNeurons_for (S i) rest' limit
    end
  else Normal false.

(** [hasEmptyNeurons()] *)
Definition hasEmptyNeurons : Method bool :=
  this ← getThis;
  liftCompletion
    (hasEmptyNeurons_for 0 (rawNeurons this) (Array_toNumber (rawNeurons this))).

(** [getAdjacentChunkPositions()] *)
Definition getAdjacentChunkPositions : Method (list Vector3Int) :=
  this ← getThis;
  let one := int 1 in
  let V := mkVector3Int in
  let adjacentChunks : list Vector3Int := [] in
  (* All corners (8 chunks) *)
  let adjacentChunks := push adjacentChunks (V (x this + one) (x this + one) (z this + one))%js in
  let adjacentChunks := push adjacentChunks (V (x this + one) (x this + one) (z this - one))%js in
  let adjacentChunks := push adjacentChunks (V (x this - one) (x this + one) (z this + one))%js in
  let adjacentChunks := push adjacentChunks (V (x this - one) (x this + one) (z this - one))%js in
  let adjacentChunks := push adjacentChunks (V (x this + one) (x this - one) (z this + one))%js in
  let adjacentChunks := push adjacentChunks (V (x this + one) (x this - one) (z this - one))%js in
  let adjacentChunks := push adjacentChunks (V (x this - one) (x this - one) (z this + one))%js in
  let adjacentChunks := push adjacentChunks (V (x this - one) (x this - one) (z this - one))%js in
  (* All directly adjacent cross faces (6 chunks) *)
  let adjacentChunks := push adjacentChunks (V (x this) (x this + one) (z this))%js in
  let adjacentChunks := push adjacentChunks (V (x this) (x this - one) (z this))%js in
  let adjacentChunks := push adjacentChunks (V (x this + one) (x this) (z this))%js in
  let adjacentChunks := push adjacentChunks (V (x this - one) (x this) (z this))%js in
  let adjacentChunks := push adjacentChunks (V (x this) (x this) (z this + one))%js in
  let adjacentChunks := push adjacentChunks (V (x this) (x this) (z this - one))%js in
  (* All edge-meeting chunks (8 chunks) *)
  let adjacentChunks := push adjacentChunks (V (x this + one) (x this + one) (z this))%js in
  let adjacentChunks := push adjacentChunks (V (x this + one) (x this - one) (z this))%js in
  let adjacentChunks := push adjacentChunks (V (x this - one) (x this + one) (z this))%js in
  let adjacentChunks := push adjacentChunks (V (x this - one) (x this - one) (z this))%js in
  let adjacentChunks := push adjacentChunks (V (x this) (x this + one) (z this + one))%js in
  let adjacentChunks := push adjacentChunks (V (x this) (x this - one) (z this + one))%js in
  let adjacentChunks := push adjacentChunks (V (x this) (x this + one) (z this - one))%js in
  let adjacentChunks := push adjacentChunks (V (x this) (x this - one) (z this - one))%js in
  (* All vertically middle corner chunks (4 chunks) *)
  let adjacentChunks := push adjacentChunks (V (x this + one) (x this) (z this + one))%js in
  let adjacentChunks := push adjacentChunks (V (x this + one) (x this) (z this - one))%js in
  let adjacentChunks := push adjacentChunks (V (x this - one) (x this) (z this + one))%js in
  let adjacentChunks := push adjacentChunks (V (x this - one) (x this) (z this - one))%js in
  mret adjacentChunks.

(** Running a method on a receiver: the receiver afterwards, and the
    completion. *)
Definition stateAfter {A : Type} (m : Method A) (this : NeuralChunk) : NeuralChunk :=
  fst (m this).
Definition completionOf {A : Type} (m : Method A) (this : NeuralChunk) : Completion A :=
  snd (m this).

(** ** Vocabulary of the statements *)


Definition succeeded {A : Type} (c : Completion A) : bool :=
  match c with
  | Normal _ => true
  | Throw _ => false
  end.


(** What [n - Math.floor(n)] can be: [NaN], or a rational in [[0, 1)]. *)
Inductive isDecimal : Number → Prop :=
  | isDecimal_NaN : isDecimal NaN
  | isDecimal_Fin (d : Qc) : (0 <= this d)%Q → (this d < 1)%Q → isDecimal (Fin d).

(** [m[p.x][p.y][p.z]], or [None] when a level is absent. *)
Definition indexLookup (m : gmap Number (gmap Number (gmap Number Neuron)))
    (p : Vector3Int) : option Neuron :=
  row ← m !! vx p; column ← row !! vy p; column !! vz p.

(** [m[p.x][p.y][p.z] = n], with the two outer levels created when absent. *)
Definition indexInsert (m : gmap Number (gmap Number (gmap Number Neuron)))
    (p : Vector3Int) (n : Neuron) : gmap Number (gmap Number (gmap Number Neuron)) :=
  let row := default ∅ (m !! vx p) in
  let column := default ∅ (row !! vy p) in
  <[vx p := <[vy p := <[vz p := n]> column]> row]> m.

Definition withRawNeurons (l : list Neuron) (this : NeuralChunk) : NeuralChunk :=
  {| neurons := neurons this; rawNeurons := l;
     x := x this; y := y this; z := z this |}.

Definition withNeurons (m : gmap Number (gmap Number (gmap Number Neuron)))
    (this : NeuralChunk) : NeuralChunk :=
  {| neurons := m; rawNeurons := rawNeurons this;
     x := x this; y := y this; z := z this |}.

(** A run of [addNeuron] calls on one chunk, left to right; the history
    records each unit and how its call completed. *)
Fixpoint addNeurons (ns : list Neuron) (this : NeuralChunk)
    : NeuralChunk * list (Neuron * Completion unit) :=
  match ns with
  | [] => (this, [])
  | n :: ns' =>
      let '(this', c) := addNeuron n this in
      let '(this'', h) := addNeurons ns' this' in
      (this'', (n, c) :: h)
  end.

(** The unit of the most recent call of the history that completed
    normally with a unit positioned at [p]; [before] when there is none. *)
Fixpoint lastInsertedAt (p : Vector3Int) (h : list (Neuron * Completion unit))
    (before : option Neuron) : option Neuron :=
  match h with
  | [] => before
  | (n, c) :: h' =>
      lastInsertedAt p h'
        (if succeeded c && bool_decide (getPositionAsVector3Int n = p)
         then Some n else before)
  end.

(** The chunks a caller can build: a fresh one, then [addNeuron] calls,
    whether they return or throw. *)
Inductive reachable : NeuralChunk → Prop :=
  | reachable_constructor (x0 y0 z0 : Number) : reachable (constructor x0 y0 z0)
  | reachable_addNeuron (n : Neuron) (this : NeuralChunk) :
      reachable this → reachable (stateAfter (addNeuron n) this).

(** The unit is stored somewhere in the position index. *)
Definition inIndex (this : NeuralChunk) (n : Neuron) : Prop :=
  ∃ p, indexLookup (neurons this) p = Some n.

(** The invariant of the data model: index and sequence hold the same
    units, and no two units of the chunk share a position. *)
Definition sameUnits (this : NeuralChunk) : Prop :=
  ∀ n, n ∈ rawNeurons this ↔ inIndex this n.

Definition uniquePositions (this : NeuralChunk) : Prop :=
  NoDup (map getPositionAsVector3Int (rawNeurons this)).

Definition chunkInvariant (this : NeuralChunk) : Prop :=
  sameUnits this ∧ uniquePositions this.

(** Every unit of the index sits under the key of its own position. *)
Definition indexKeyedByPosition (this : NeuralChunk) : Prop :=
  ∀ p n, indexLookup (neurons this) p = Some n → getPositionAsVector3Int n = p.

(** The 26 offset triples of [getAdjacentChunkPositions], in the order
    of its pushes. *)
Definition adjacentOffsets : list (Z * Z * Z) :=
  [ (1, 1, 1); (1, 1, -1); (-1, 1, 1); (-1, 1, -1);
    (1, -1, 1); (1, -1, -1); (-1, -1, 1); (-1, -1, -1);
    (0, 1, 0); (0, -1, 0); (1, 0, 0); (-1, 0, 0); (0, 0, 1); (0, 0, -1);
    (1, 1, 0); (1, -1, 0); (-1, 1, 0); (-1, -1, 0);
    (0, 1, 1); (0, -1, 1); (0, 1, -1); (0, -1, -1);
    (1, 0, 1); (1, 0, -1); (-1, 0, 1); (-1, 0, -1) ].

(** Two distinct units with one position, and a unit with an empty payload. *)
Definition unitA : Neuron := mkNeuron 1 (vector3 1 2 3) "a".
Definition unitB : Neuron := mkNeuron 2 (vector3 1 2 3) "b".
Definition emptyUnit : Neuron := mkNeuron 3 (vector3 0 0 0) "".

Definition origin : NeuralChunk := constructor (int 0) (int 0) (int 0).

(** ** The remaining methods *)

(** [a === b] on numbers: [NaN] differs from everything, itself
    included. *)
Definition strictEquals (a b : Number) : bool :=
  match a, b with
  | NaN, _ | _, NaN => false
  | _, _ => bool_decide (a = b)
  end.

(** [isEqual(otherChunk)] *)
Definition isEqual (otherChunk : NeuralChunk) : Method bool :=
  this ← getThis;
  mret (strictEquals (x otherChunk) (x this)
        && strictEquals (y otherChunk) (y this)
        && strictEquals (z otherChunk) (z this)).

(** The object built by [toJSON()]: its one property. *)
Record JSONObject : Type := mkJSONObject {
  obj_rawNeurons : list Neuron
}.

(** [toJSON()]; the returned object holds the array of the chunk as it
    is at the time of the call. *)
Definition toJSON : Method JSONObject :=
  this ← getThis;
  let obj := {| obj_rawNeurons := rawNeurons this |} in
  mret obj.

(** ** Vocabulary of the further statements *)

(** The position at the offset [(dx, dy, dz)] from [(kx, ky, kz)]. *)
Definition shiftBy (kx ky kz : Z) (d : Z * Z * Z) : Vector3Int :=
  let '(dx, dy, dz) := d in vector3 (kx + dx) (ky + dy) (kz + dz).

(** The integer held in a number that holds one. *)
Definition toZ (n : Number) : Z :=
  match n with
  | Fin q => Qfloor q
  | _ => 0
  end.

(** The offsets that [gatherEdgeChunks] pushes for given flags, read
    off a run of it around the chunk (0, 0, 0). *)
Definition offsetsOf (f : BoundaryFlags) : list (Z * Z * Z) :=
  map (λ v, (toZ (vx v), toZ (vy v), toZ (vz v)))
    (gatherEdgeChunks f (vector3 0 0 0) []).

(** The flags of an integer point: its decimal is 0 on every axis, so
    they depend on the threshold alone. *)
Definition integerPointFlags (edgeDistanceThreshold : Number) : BoundaryFlags :=
  let low := (int 0 <? edgeDistanceThreshold)%js in
  let high := (int 1 <? edgeDistanceThreshold)%js in
  mkBoundaryFlags low high low high low high.

Definition lowSideOffsets : list (Z * Z * Z) :=
  [ (-1, 0, 0); (-1, -1, 0); (0, -1, 0); (0, 0, -1); (0, -1, -1);
    (-1, 0, -1); (-1, -1, -1) ].

Definition bothSidesOffsets : list (Z * Z * Z) :=
  [ (-1, 0, 0); (-1, 1, 0); (0, -1, 0); (0, 0, -1); (0, 1, -1);
    (1, 0, 1); (1, 1, 1); (-1, 0, 1); (-1, 1, 1);
    (1, 0, -1); (1, 1, -1); (-1, 0, -1); (-1, 1, -1) ].

(** The first unit of the list positioned at [p]. *)
Definition firstAt (p : Vector3Int) (ns : list Neuron) : option Neuron :=
  List.find (λ n, bool_decide (getPositionAsVector3Int n = p)) ns.

Definition hasNaN (this : NeuralChunk) : bool :=
  bool_decide (x this = NaN ∨ y this = NaN ∨ z this = NaN).

(** ** Safe integers *)

(** [Number.MAX_SAFE_INTEGER], [2^53 - 1]. *)
Definition MAX_SAFE_INTEGER : Z := 9007199254740991.

(** [Number.isSafeInteger(n)] for an integer [n]. *)
Definition safeInteger (n : Z) : Prop :=
  - MAX_SAFE_INTEGER ≤ n ≤ MAX_SAFE_INTEGER.

(** The inputs of [getChunkPositionFromWorldPosition] and the three sums
    it forms are safe integers. *)
Definition safeAddressing (px py pz chunkSize worldSize : Z) : Prop :=
  safeInteger px ∧ safeInteger py ∧ safeInteger pz
  ∧ safeInteger chunkSize ∧ safeInteger worldSize
  ∧ safeInteger (px + worldSize) ∧ safeInteger (py + worldSize)
  ∧ safeInteger (pz + worldSize).

(** A chunk position whose neighbours have safe integer coordinates. *)
Definition safeNeighbourhood (kx ky kz : Z) : Prop :=
  safeInteger (kx - 1) ∧ safeInteger (kx + 1)
  ∧ safeInteger (ky - 1) ∧ safeInteger (ky + 1)
  ∧ safeInteger (kz - 1) ∧ safeInteger (kz + 1).

(** [(p, q, r)] is one of the 26 positions around [(a, b, c)]. *)
Definition isNeighbour (a b c p q r : Z) : Prop :=
  a - 1 ≤ p ≤ a + 1 ∧ b - 1 ≤ q ≤ b + 1 ∧ c - 1 ≤ r ≤ c + 1
  ∧ (p, q, r) ≠ (a, b, c).


(** * Properties *)

Ltac run_method :=
  unfold mbind, Method_bind, getThis, setRawNeurons, setNeurons, member, mret,
    Method_ret, throw, liftCompletion; cbn [fst snd neurons rawNeurons x y z].

Ltac step := cbn [negb neurons rawNeurons x y z].

Ltac by_compute := apply (bool_decide_unpack _); vm_compute; exact I.

(** ** Numbers *)

Section NumberFacts.
Implicit Types a b c : Z.

Lemma this_Q2Qc (q : Q) : (this (Q2Qc q) == q)%Q.
Proof. apply Qred_correct. Qed.

Lemma Q2Qc_inject_Z_inj a b : Q2Qc (inject_Z a) = Q2Qc (inject_Z b) → a = b.
Proof.
  intros H. apply Q2Qc_eq_iff in H. unfold Qeq in H. simpl in H. lia.
Qed.

Lemma int_inj a b : int a = int b → a = b.
Proof.
  intros H. apply Q2Qc_inject_Z_inj. unfold int in H. congruence.
Qed.

Lemma add_int a b : (int a + int b)%js = int (a + b).
Proof.
  unfold int, add. f_equal. apply Qc_is_canon. simpl.
  rewrite !Qred_correct, inject_Z_plus. reflexivity.
Qed.

Lemma sub_int a b : (int a - int b)%js = int (a - b).
Proof.
  unfold int, sub. f_equal. apply Qc_is_canon. simpl.
  rewrite !Qred_correct.
  unfold Z.sub. rewrite inject_Z_plus, inject_Z_opp. reflexivity.
Qed.

Lemma floor_int a : floor (int a) = int a.
Proof.
  unfold floor, int at 1. f_equal.
  change (this (Q2Qc (inject_Z a))) with (Qred (inject_Z a)).
  rewrite (Qfloor_comp _ _ (Qred_correct _)). apply Qfloor_Z.
Qed.

Lemma Qc_is_zero_int a : Qc_is_zero (Q2Qc (inject_Z a)) = bool_decide (a = 0).
Proof.
  unfold Qc_is_zero. apply bool_decide_ext. split.
  - intros H. apply (Q2Qc_inject_Z_inj a 0). exact H.
  - intros ->. reflexivity.
Qed.

Lemma floor_div_int a c : c ≠ 0 → floor (int a / int c)%js = int (a / c).
Proof.
  intros Hc. unfold div, int at 1 2.
  rewrite Qc_is_zero_int, bool_decide_eq_false_2 by exact Hc.
  unfold floor. f_equal. rewrite Zdiv_Qdiv.
  apply Qfloor_comp. simpl.
  rewrite !Qred_correct. reflexivity.
Qed.


Lemma Zdiv_is_floor a c : 0 < c → a / c * c ≤ a < (a / c + 1) * c.
Proof.
  intros Hc. pose proof (Z.div_mod a c ltac:(lia)).
  pose proof (Z.mod_pos_bound a c Hc). lia.
Qed.

Lemma lt_Fin_false (p q : Qc) : (this q <= this p)%Q → (Fin p <? Fin q)%js = false.
Proof.
  intros H. apply bool_decide_eq_false_2. unfold Qclt. lra.
Qed.

Lemma sub_floor_isDecimal (n : Number) : isDecimal (n - floor n)%js.
Proof.
  destruct n as [q| | |]; simpl; try constructor.
  - unfold Qcminus, Qcplus, Qcopp. rewrite !this_Q2Qc.
    pose proof (Qfloor_le q). lra.
  - unfold Qcminus, Qcplus, Qcopp. rewrite !this_Q2Qc.
    pose proof (Qlt_floor q) as H. rewrite inject_Z_plus in H.
    change (inject_Z 1) with 1%Q in H. lra.
Qed.

Lemma isDecimal_not_lt_0 d : isDecimal d → (d <? int 0)%js = false.
Proof.
  intros [|q H0 H1]; [reflexivity|].
  apply lt_Fin_false. rewrite this_Q2Qc.
  change (inject_Z 0) with 0%Q. lra.
Qed.

Lemma isDecimal_not_gt_1 d : isDecimal d → ((int 1 - d) <? int 0)%js = false.
Proof.
  intros [|q H0 H1]; [reflexivity|].
  apply lt_Fin_false. unfold Qcminus, Qcplus, Qcopp.
  rewrite !this_Q2Qc.
  change (inject_Z 0) with 0%Q. change (inject_Z 1) with 1%Q. lra.
Qed.

End NumberFacts.

(** ** Chunk addressing *)

Lemma getChunkPositionFromWorldPosition_int (px py pz chunkSize worldSize : Z) :
  chunkSize ≠ 0 →
  getChunkPositionFromWorldPosition (vector3 px py pz) (int chunkSize) (int worldSize)
  = Normal (vector3 ((px + worldSize) / chunkSize)
                    ((py + worldSize) / chunkSize)
                    ((pz + worldSize) / chunkSize)).
Proof.
  intros Hc. unfold getChunkPositionFromWorldPosition, vector3.
  cbn [vx vy vz]. rewrite !add_int, !floor_div_int by exact Hc. reflexivity.
Qed.


(** C7: for a point, a world offset and a chunk size greater than zero
    that are safe integers with safe sums, every axis of the chunk
    position is the floor of [(axis + worldSize) / chunkSize], computed
    on that axis alone: the integer [k] with
    [k * chunkSize ≤ axis + worldSize < (k + 1) * chunkSize]. *)
Theorem getChunkPositionFromWorldPosition_floor (px py pz chunkSize worldSize : Z) :
  0 < chunkSize →
  safeAddressing px py pz chunkSize worldSize →
  let k a := (a + worldSize) / chunkSize in
  getChunkPositionFromWorldPosition (vector3 px py pz) (int chunkSize) (int worldSize)
  = Normal (vector3 (k px) (k py) (k pz))
  ∧ ∀ a, k a * chunkSize ≤ a + worldSize < (k a + 1) * chunkSize.
Proof.
  intros Hc _ k. split.
  - apply getChunkPositionFromWorldPosition_int. lia.
  - intros a. apply Zdiv_is_floor. exact Hc.
Qed.

(** With chunks of size 10 and no offset, x = 9 lies in chunk 0 and
    x = 10 in chunk 1. *)
Lemma getChunkPositionFromWorldPosition_floor_witness :
  getChunkPositionFromWorldPosition (vector3 9 0 0) (int 10) (int 0)
  = Normal (vector3 0 0 0)
  ∧ getChunkPositionFromWorldPosition (vector3 10 0 0) (int 10) (int 0)
    = Normal (vector3 1 0 0).
Proof.
  split.
  - apply (getChunkPositionFromWorldPosition_floor 9 0 0 10 0); [lia|].
    unfold safeAddressing, safeInteger, MAX_SAFE_INTEGER. lia.
  - apply (getChunkPositionFromWorldPosition_floor 10 0 0 10 0); [lia|].
    unfold safeAddressing, safeInteger, MAX_SAFE_INTEGER. lia.
Defined.

Lemma coordinateChunkDecimal_int (axis worldSize : Z) (chunkSize : Number) :
  coordinateChunkDecimal (int axis) (int worldSize) chunkSize = int 0.
Proof.
  unfold coordinateChunkDecimal.
  rewrite add_int, floor_int, sub_int. f_equal. lia.
Qed.

Lemma boundaryFlags_threshold_0 (position : Vector3Int) (worldSize chunkSize : Number) :
  boundaryFlags position worldSize chunkSize (int 0)
  = mkBoundaryFlags false false false false false false.
Proof.
  unfold boundaryFlags, coordinateChunkDecimal.
  repeat rewrite isDecimal_not_gt_1 by apply sub_floor_isDecimal.
  repeat rewrite isDecimal_not_lt_0 by apply sub_floor_isDecimal.
  reflexivity.
Qed.

(** C9: with an edge threshold of 0 no axis is flagged and the returned
    array is empty, for every point, world offset and chunk size (those
    greater than zero included). *)
Theorem edge_cases_threshold_0 (point : Vector3Int) (worldSize chunkSize : Number) :
  getChunkPositionsFromPointEdgeCases point worldSize chunkSize (int 0) = Normal [].
Proof.
  unfold getChunkPositionsFromPointEdgeCases.
  rewrite boundaryFlags_threshold_0. reflexivity.
Qed.

(** C1: the value compared with the threshold is
    [position - Math.floor(position)], which is 0 for every integer
    position, not the fraction of [position / chunkSize].  In the
    scenario (chunks of 16, no offset, point (15,15,15), threshold 0.2)
    every axis is flagged near its low boundary and none near its high
    one, and the seven coordinates returned are those on the low side;
    none of the seven high-side coordinates is returned. *)
Theorem edge_cases_scenario_takes_low_side :
  (∀ (axis worldSize : Z) (chunkSize : Number),
     coordinateChunkDecimal (int axis) (int worldSize) chunkSize = int 0)
  ∧ coordinateChunkDecimal (int 15) (int 0) (int 16) ≠ frac 15 16
  ∧ boundaryFlags (vector3 15 15 15) (int 0) (int 16) (frac 1 5)
    = mkBoundaryFlags true false true false true false
  ∧ getChunkPositionsFromPointEdgeCases (vector3 15 15 15) (int 0) (int 16) (frac 1 5)
    = Normal [vector3 (-1) 0 0; vector3 (-1) (-1) 0; vector3 0 (-1) 0;
              vector3 0 0 (-1); vector3 0 (-1) (-1); vector3 (-1) 0 (-1);
              vector3 (-1) (-1) (-1)]
  ∧ Forall
      (λ v, v ∉ [vector3 (-1) 0 0; vector3 (-1) (-1) 0; vector3 0 (-1) 0;
                 vector3 0 0 (-1); vector3 0 (-1) (-1); vector3 (-1) 0 (-1);
                 vector3 (-1) (-1) (-1)])
      [vector3 1 1 1; vector3 1 0 0; vector3 0 1 0; vector3 0 0 1;
       vector3 1 1 0; vector3 1 0 1; vector3 0 1 1].
Proof.
  split; [exact coordinateChunkDecimal_int|].
  split; [by vm_compute|].
  split; [by vm_compute|].
  split; [by vm_compute|].
  repeat (apply Forall_cons; split; [by_compute|]).
  apply Forall_nil; exact I.
Qed.





(** ** Chunk storage *)

Section Storage.
Implicit Types (this : NeuralChunk) (neuron : Neuron) (position : Vector3Int).

Lemma hasKey_Some {V : Type} (m : gmap Number V) k v :
  m !! k = Some v → hasKey k m = true.
Proof. intros H. unfold hasKey. apply bool_decide_eq_true_2. eauto. Qed.

Lemma hasKey_None {V : Type} (m : gmap Number V) k :
  m !! k = None → hasKey k m = false.
Proof.
  intros H. unfold hasKey. apply bool_decide_eq_false_2.
  rewrite H. by intros [? ?].
Qed.

(** [getNeuronFromPosition] reads the index and leaves the chunk as it is. *)
Lemma getNeuronFromPosition_lookup position this :
  getNeuronFromPosition position this
  = (this, Normal (indexLookup (neurons this) position)).
Proof.
  unfold getNeuronFromPosition, indexLookup.
  unfold mbind at 1, Method_bind, getThis.
  destruct (neurons this !! vx position) as [row|] eqn:Hx; cbn [option_bind mbind].
  2:{ rewrite (hasKey_None _ _ Hx). reflexivity. }
  rewrite (hasKey_Some _ _ _ Hx). unfold member. rewrite Hx.
  unfold mbind at 1, Method_bind, mret, Method_ret.
  destruct (row !! vy position) as [column|] eqn:Hy; cbn [option_bind mbind].
  2:{ rewrite (hasKey_None _ _ Hy). reflexivity. }
  rewrite (hasKey_Some _ _ _ Hy).
  unfold mbind at 1, Method_bind, mret, Method_ret.
  destruct (column !! vz position) as [neuron|] eqn:Hz.
  2:{ rewrite (hasKey_None _ _ Hz). reflexivity. }
  rewrite (hasKey_Some _ _ _ Hz). reflexivity.
Qed.

(** [addNeuron] on an occupied position: the unit is pushed, the index
    is left alone, and the collision is thrown. *)
Lemma addNeuron_occupied neuron this old :
  indexLookup (neurons this) (getPositionAsVector3Int neuron) = Some old →
  addNeuron neuron this
  = (withRawNeurons (rawNeurons this ++ [neuron]) this,
     Throw (NeuronCollision (vx (getPositionAsVector3Int neuron))
              (vy (getPositionAsVector3Int neuron))
              (vz (getPositionAsVector3Int neuron)))).
Proof.
  unfold indexLookup, addNeuron. set (p := getPositionAsVector3Int neuron).
  destruct (neurons this !! vx p) as [row|] eqn:Hx; [|discriminate].
  cbn [mbind option_bind].
  destruct (row !! vy p) as [column|] eqn:Hy; [|discriminate].
  cbn [mbind option_bind]. intros Hz.
  run_method. unfold push.
  rewrite (hasKey_Some _ _ _ Hx). step. rewrite Hx. step.
  rewrite (hasKey_Some _ _ _ Hy). step. rewrite Hx. step. rewrite Hy. step.
  rewrite (hasKey_Some _ _ _ Hz). reflexivity.
Qed.

(** [addNeuron] on a free position: the unit is pushed and indexed. *)
Lemma addNeuron_free neuron this :
  indexLookup (neurons this) (getPositionAsVector3Int neuron) = None →
  addNeuron neuron this
  = (withNeurons (indexInsert (neurons this) (getPositionAsVector3Int neuron) neuron)
       (withRawNeurons (rawNeurons this ++ [neuron]) this),
     Normal ()).
Proof.
  unfold indexLookup, indexInsert, addNeuron, withNeurons, withRawNeurons.
  set (p := getPositionAsVector3Int neuron).
  run_method. unfold push.
  destruct (neurons this !! vx p) as [row|] eqn:Hx;
    cbn [mbind option_bind default from_option id].
  - rewrite (hasKey_Some _ _ _ Hx). step. rewrite Hx. step.
    destruct (row !! vy p) as [column|] eqn:Hy;
      cbn [mbind option_bind default from_option id].
    + intros Hz. rewrite (hasKey_Some _ _ _ Hy). step. rewrite Hx. step.
      rewrite Hy. step. rewrite (hasKey_None _ _ Hz). step. reflexivity.
    + intros _. rewrite (hasKey_None _ _ Hy). step.
      rewrite ?lookup_insert_eq. step. rewrite ?lookup_insert_eq. step.
      rewrite (hasKey_None (V:=Neuron) ∅) by apply lookup_empty. step.
      rewrite ?insert_insert_eq. reflexivity.
  - intros _. rewrite (hasKey_None _ _ Hx). step.
    rewrite ?lookup_insert_eq. step.
    rewrite (hasKey_None (V:=gmap Number Neuron) ∅) by apply lookup_empty.
    step. rewrite ?lookup_insert_eq. step. rewrite ?lookup_insert_eq. step.
    rewrite (hasKey_None (V:=Neuron) ∅) by apply lookup_empty. step.
    rewrite ?lookup_empty. cbn [default from_option id].
    rewrite ?insert_insert_eq. reflexivity.
Qed.

Lemma addNeuron_rawNeurons neuron this :
  rawNeurons (stateAfter (addNeuron neuron) this) = rawNeurons this ++ [neuron].
Proof.
  unfold stateAfter.
  destruct (indexLookup (neurons this) (getPositionAsVector3Int neuron))
    as [old|] eqn:Hp.
  - rewrite (addNeuron_occupied _ _ _ Hp). reflexivity.
  - rewrite (addNeuron_free _ _ Hp). reflexivity.
Qed.

Lemma indexLookup_insert m p n q :
  indexLookup (indexInsert m p n) q
  = if decide (q = p) then Some n else indexLookup m q.
Proof.
  unfold indexLookup, indexInsert.
  destruct p as [px py pz], q as [qx qy qz]. cbn [vx vy vz].
  destruct (decide (qx = px)) as [->|Hx].
  2:{ rewrite lookup_insert_ne by congruence.
      rewrite decide_False by congruence. reflexivity. }
  rewrite lookup_insert_eq. cbn [mbind option_bind].
  destruct (decide (qy = py)) as [->|Hy].
  2:{ rewrite lookup_insert_ne by congruence.
      rewrite decide_False by congruence.
      destruct (m !! px); reflexivity. }
  rewrite lookup_insert_eq. cbn [mbind option_bind].
  destruct (decide (qz = pz)) as [->|Hz].
  - rewrite lookup_insert_eq, decide_True; reflexivity.
  - rewrite lookup_insert_ne by congruence.
    rewrite decide_False by congruence.
    destruct (m !! px) as [row|]; cbn [default from_option id mbind option_bind];
      [destruct (row !! py); reflexivity | reflexivity].
Qed.

(** The index after one call, whichever way it completed. *)
Lemma addNeuron_indexLookup neuron this q :
  indexLookup (neurons (fst (addNeuron neuron this))) q
  = if succeeded (snd (addNeuron neuron this))
       && bool_decide (getPositionAsVector3Int neuron = q)
    then Some neuron else indexLookup (neurons this) q.
Proof.
  destruct (indexLookup (neurons this) (getPositionAsVector3Int neuron))
    as [old|] eqn:Hp.
  - rewrite (addNeuron_occupied _ _ _ Hp). reflexivity.
  - rewrite (addNeuron_free _ _ Hp). cbn [fst snd succeeded andb].
    unfold withNeurons. cbn [neurons]. rewrite indexLookup_insert.
    destruct (decide (q = getPositionAsVector3Int neuron)) as [->|Hne].
    + rewrite bool_decide_eq_true_2; reflexivity.
    + rewrite bool_decide_eq_false_2 by congruence. reflexivity.
Qed.

Lemma addNeurons_indexLookup ns this q :
  indexLookup (neurons (fst (addNeurons ns this))) q
  = lastInsertedAt q (snd (addNeurons ns this)) (indexLookup (neurons this) q).
Proof.
  revert this. induction ns as [|n ns IH]; intros this; [reflexivity|].
  cbn [addNeurons].
  pose proof (addNeuron_indexLookup n this q) as Hstep.
  destruct (addNeuron n this) as [this' c].
  specialize (IH this').
  destruct (addNeurons ns this') as [this'' h].
  cbn [fst snd lastInsertedAt] in *. rewrite IH, Hstep. reflexivity.
Qed.

End Storage.

Section Invariant.
Implicit Types (this : NeuralChunk) (neuron : Neuron).

(** What does hold on every reachable chunk: a unit of the index sits
    under its own position and is in the sequence. *)
Lemma reachable_index_sound this :
  reachable this →
  indexKeyedByPosition this ∧ ∀ n, inIndex this n → n ∈ rawNeurons this.
Proof.
  induction 1 as [x0 y0 z0|neuron this Hreach [Hkey Hsub]].
  - split; [intros p n H|intros n [p H]]; discriminate H.
  - unfold indexKeyedByPosition, inIndex.
    rewrite (addNeuron_rawNeurons neuron this). unfold stateAfter.
    split.
    + intros p n. rewrite addNeuron_indexLookup.
      destruct (succeeded _ && bool_decide _) eqn:Hb.
      * apply andb_prop in Hb as [_ Hb]. apply bool_decide_eq_true_1 in Hb.
        congruence.
      * apply Hkey.
    + intros n [p Hp]. rewrite addNeuron_indexLookup in Hp.
      apply elem_of_app.
      destruct (succeeded _ && bool_decide _).
      * right. apply list_elem_of_singleton. congruence.
      * left. apply Hsub. exists p. exact Hp.
Qed.

(** A call that returns keeps the invariant. *)
Lemma addNeuron_returns_keeps_invariant neuron this :
  chunkInvariant this → indexKeyedByPosition this →
  succeeded (completionOf (addNeuron neuron) this) = true →
  chunkInvariant (stateAfter (addNeuron neuron) this)
  ∧ indexKeyedByPosition (stateAfter (addNeuron neuron) this).
Proof.
  intros [Hsame Huniq] Hkey. unfold completionOf, stateAfter.
  destruct (indexLookup (neurons this) (getPositionAsVector3Int neuron))
    as [old|] eqn:Hp.
  { rewrite (addNeuron_occupied _ _ _ Hp). discriminate. }
  rewrite (addNeuron_free _ _ Hp). intros _.
  unfold chunkInvariant, sameUnits, uniquePositions, indexKeyedByPosition, inIndex.
  cbn [fst neurons rawNeurons withNeurons withRawNeurons].
  split; [split|].
  - intros n. rewrite elem_of_app, list_elem_of_singleton. split.
    + intros [Hin| ->].
      * apply Hsame in Hin as [p Hn]. exists p. rewrite indexLookup_insert.
        rewrite decide_False; [exact Hn|]. intros ->. congruence.
      * exists (getPositionAsVector3Int neuron).
        rewrite indexLookup_insert, decide_True; reflexivity.
    + intros [p Hn]. rewrite indexLookup_insert in Hn.
      destruct (decide (p = getPositionAsVector3Int neuron)).
      * right. congruence.
      * left. apply Hsame. exists p. exact Hn.
  - rewrite map_app. apply NoDup_app. split; [exact Huniq|]. split.
    + intros p Hin Hp'. apply list_elem_of_singleton in Hp'. subst p.
      apply list_elem_of_fmap in Hin as [n0 [Heq Hin]].
      apply Hsame in Hin as [p0 Hn0].
      pose proof (Hkey _ _ Hn0). congruence.
    + apply NoDup_singleton.
  - intros p n. rewrite indexLookup_insert.
    destruct (decide (p = getPositionAsVector3Int neuron)); [congruence|apply Hkey].
Qed.

End Invariant.

(** C3: a second unit at the position of a stored one.  The call throws
    the collision naming (1, 2, 3), the index is unchanged and still
    answers with the first unit, but the second unit has been pushed
    onto [rawNeurons] before the test, so the chunk is not what it was
    before the call. *)
Theorem addNeuron_collision_keeps_pushed_unit :
  let first := stateAfter (addNeuron unitA) origin in
  let second := stateAfter (addNeuron unitB) first in
  completionOf (addNeuron unitA) origin = Normal ()
  ∧ completionOf (addNeuron unitB) first
    = Throw (NeuronCollision (int 1) (int 2) (int 3))
  ∧ neurons second = neurons first
  ∧ completionOf (getNeuronFromPosition (vector3 1 2 3)) second = Normal (Some unitA)
  ∧ rawNeurons first = [unitA]
  ∧ rawNeurons second = [unitA; unitB]
  ∧ second ≠ first.
Proof.
  cbv zeta. repeat split; by vm_compute.
Qed.

(** C4: the chunk reached from a fresh one by adding [unitA] and then
    [unitB] (the second call throws) holds [unitB] in its sequence and
    not in its index, and two units of its sequence share a position:
    neither half of the invariant holds on it. *)
Theorem reachable_chunk_breaks_invariant :
  let this := stateAfter (addNeuron unitB) (stateAfter (addNeuron unitA) origin) in
  reachable this
  ∧ (unitB ∈ rawNeurons this)
  ∧ ¬ inIndex this unitB
  ∧ ¬ sameUnits this
  ∧ ¬ uniquePositions this
  ∧ ¬ chunkInvariant this.
Proof.
  cbv zeta.
  set (this := stateAfter (addNeuron unitB) (stateAfter (addNeuron unitA) origin)).
  assert (reachable this) as Hreach by repeat constructor.
  assert (unitB ∈ rawNeurons this) as Hin by by_compute.
  assert (¬ inIndex this unitB) as Hout.
  { destruct (reachable_index_sound this Hreach) as [Hkey _].
    intros [p Hp]. pose proof (Hkey _ _ Hp) as <-.
    vm_compute in Hp. discriminate Hp. }
  assert (¬ uniquePositions this) as Hdup.
  { unfold uniquePositions.
    assert (rawNeurons this = [unitA; unitB]) as -> by (by vm_compute).
    intros H. apply NoDup_cons in H as [H _]. apply H. by_compute. }
  split; [exact Hreach|].
  split; [exact Hin|]. split; [exact Hout|].
  split; [intros Hsame; apply Hout, Hsame, Hin|].
  split; [exact Hdup|]. intros [_ H]. exact (Hdup H).
Qed.

(** C8: [getNeuronFromPosition] returns a value and leaves the receiver
    as it was, for every chunk and every position; and on the chunk
    reached from a fresh one by any run of [addNeuron] calls it returns
    the unit of the most recent call that returned normally with a unit
    at that position, and [undefined] when no call did. *)
Theorem getNeuronFromPosition_pure_lookup :
  (∀ (this : NeuralChunk) (position : Vector3Int),
     ∃ found, getNeuronFromPosition position this = (this, Normal found))
  ∧ (∀ (x0 y0 z0 : Number) (position : Vector3Int),
       getNeuronFromPosition position (constructor x0 y0 z0)
       = (constructor x0 y0 z0, Normal None))
  ∧ (∀ (x0 y0 z0 : Number) (ns : list Neuron) (position : Vector3Int),
       let this := fst (addNeurons ns (constructor x0 y0 z0)) in
       let history := snd (addNeurons ns (constructor x0 y0 z0)) in
       getNeuronFromPosition position this
       = (this, Normal (lastInsertedAt position history None))).
Proof.
  split; [|split].
  - intros this position. eexists. apply getNeuronFromPosition_lookup.
  - intros x0 y0 z0 position. rewrite getNeuronFromPosition_lookup. reflexivity.
  - intros x0 y0 z0 ns position this history.
    rewrite getNeuronFromPosition_lookup.
    unfold this, history. rewrite addNeurons_indexLookup. reflexivity.
Qed.

(** A run on concrete units: the second call collides, the third is at
    a free position. *)
Example getNeuronFromPosition_after_run :
  let this := fst (addNeurons [unitA; unitB; emptyUnit] origin) in
  map (λ entry, succeeded (snd entry)) (snd (addNeurons [unitA; unitB; emptyUnit] origin))
  = [true; false; true]
  ∧ completionOf (getNeuronFromPosition (vector3 1 2 3)) this = Normal (Some unitA)
  ∧ completionOf (getNeuronFromPosition (vector3 0 0 0)) this = Normal (Some emptyUnit)
  ∧ completionOf (getNeuronFromPosition (vector3 3 2 1)) this = Normal None.
Proof. cbv zeta. repeat split; by vm_compute. Qed.

(** ** The empty-unit scan *)

Lemma Array_toString_cons (neuron : Neuron) (arr : list Neuron) :
  ∃ s, Array_toString (neuron :: arr) = String "[" s.
Proof.
  unfold Array_toString. cbn [map String.concat Neuron_toString].
  destruct (map Neuron_toString arr); eexists; reflexivity.
Qed.

Lemma StringToNumber_bracket (s : string) : StringToNumber (String "[" s) = NaN.
Proof. reflexivity. Qed.

(** An array that holds a unit converts to [NaN]; the empty one to 0. *)
Lemma Array_toNumber_cons (neuron : Neuron) (arr : list Neuron) :
  Array_toNumber (neuron :: arr) = NaN.
Proof.
  unfold Array_toNumber. destruct (Array_toString_cons neuron arr) as [s ->].
  apply StringToNumber_bracket.
Qed.

Lemma Array_toNumber_nil : Array_toNumber [] = int 0.
Proof. reflexivity. Qed.

Lemma hasEmptyNeurons_for_NaN (i : nat) (rest : list Neuron) :
  hasEmptyNeurons_for i rest NaN = Normal false.
Proof. destruct rest; reflexivity. Qed.

(** The loop test is false at [i = 0] on every chunk, so the body never
    runs and the answer is [false]. *)
Lemma hasEmptyNeurons_false (this : NeuralChunk) :
  hasEmptyNeurons this = (this, Normal false).
Proof.
  unfold hasEmptyNeurons, mbind, Method_bind, getThis, liftCompletion.
  destruct (rawNeurons this) as [|neuron arr].
  - reflexivity.
  - rewrite Array_toNumber_cons, hasEmptyNeurons_for_NaN. reflexivity.
Qed.

(** C5: a fresh chunk answers [false]; after a unit with an empty
    payload has been added (the call returns, the unit is the one
    element of [rawNeurons]) the scan still answers [false], because
    the loop test [i < this.rawNeurons] is false before the first
    iteration. *)
Theorem hasEmptyNeurons_misses_empty_unit :
  let this := stateAfter (addNeuron emptyUnit) origin in
  completionOf hasEmptyNeurons origin = Normal false
  ∧ completionOf (addNeuron emptyUnit) origin = Normal ()
  ∧ rawNeurons this = [emptyUnit]
  ∧ data emptyUnit = ""%string
  ∧ (Array_toNumber (rawNeurons this) = NaN)
  ∧ completionOf hasEmptyNeurons this = Normal false.
Proof.
  cbv zeta. repeat split; by vm_compute.
Qed.

(** ** The neighbourhood of a chunk *)

(** C10: two chunks with the same [x] and the same [z] get the same
    array of 26 positions, whatever their [y] and their contents; the
    call leaves the receiver as it was. *)
Theorem adjacent_ignores_y (c1 c2 : NeuralChunk) :
  x c1 = x c2 → z c1 = z c2 →
  completionOf getAdjacentChunkPositions c1 = completionOf getAdjacentChunkPositions c2
  ∧ (∃ l, completionOf getAdjacentChunkPositions c1 = Normal l ∧ length l = 26%nat)
  ∧ stateAfter getAdjacentChunkPositions c1 = c1.
Proof.
  intros Hx Hz. unfold completionOf, stateAfter, getAdjacentChunkPositions.
  unfold mbind, Method_bind, getThis, mret, Method_ret. cbn [fst snd].
  rewrite Hx, Hz. split; [reflexivity|]. split; [|reflexivity].
  eexists. split; [reflexivity|]. reflexivity.
Qed.

Lemma adjacent_ignores_y_witness :
  completionOf getAdjacentChunkPositions (constructor (int 0) (int 5) (int 0))
  = completionOf getAdjacentChunkPositions
      (stateAfter (addNeuron unitA) (constructor (int 0) (int (-7)) (int 0))).
Proof.
  apply (adjacent_ignores_y (constructor (int 0) (int 5) (int 0))
           (stateAfter (addNeuron unitA) (constructor (int 0) (int (-7)) (int 0))));
    reflexivity.
Defined.

(** For integer coordinates: the chunk (a, _, b) gets the positions
    (a + dx, a + dy, b + dz), one per offset triple, all distinct. *)
Lemma adjacent_of_int (a b : Z) (y0 : Number) :
  completionOf getAdjacentChunkPositions (constructor (int a) y0 (int b))
  = Normal (map (λ '(dx, dy, dz), vector3 (a + dx) (a + dy) (b + dz)) adjacentOffsets).
Proof.
  unfold completionOf, getAdjacentChunkPositions, constructor.
  unfold mbind, Method_bind, getThis, mret, Method_ret, push.
  cbn [fst snd x z app map adjacentOffsets].
  rewrite !add_int, !sub_int, !Z.add_0_r. reflexivity.
Qed.

Lemma adjacentOffsets_all :
  NoDup adjacentOffsets
  ∧ ∀ dx dy dz, (dx, dy, dz) ∈ adjacentOffsets ↔
      (-1 ≤ dx ≤ 1 ∧ -1 ≤ dy ≤ 1 ∧ -1 ≤ dz ≤ 1 ∧ (dx, dy, dz) ≠ (0, 0, 0)).
Proof.
  split; [by_compute|].
  intros dx dy dz. split.
  - unfold adjacentOffsets. rewrite !elem_of_cons, elem_of_nil.
    intros H. repeat (destruct H as [H|H]; [injection H as -> -> ->; repeat split; (lia || discriminate)|]).
    destruct H.
  - intros (Hx & Hy & Hz & Hne).
    assert (dx = -1 ∨ dx = 0 ∨ dx = 1) as Hdx by lia.
    assert (dy = -1 ∨ dy = 0 ∨ dy = 1) as Hdy by lia.
    assert (dz = -1 ∨ dz = 0 ∨ dz = 1) as Hdz by lia.
    destruct Hdx as [->|[->| ->]], Hdy as [->|[->| ->]], Hdz as [->|[->| ->]];
      try by_compute.
    congruence.
Qed.

(** The 26 positions, all built from [x] and [z]. *)
Example adjacent_of_0_5_0 :
  completionOf getAdjacentChunkPositions (constructor (int 0) (int 5) (int 0)) =
  Normal [vector3 1 1 1; vector3 1 1 (-1); vector3 (-1) 1 1; vector3 (-1) 1 (-1);
          vector3 1 (-1) 1; vector3 1 (-1) (-1); vector3 (-1) (-1) 1;
          vector3 (-1) (-1) (-1);
          vector3 0 1 0; vector3 0 (-1) 0; vector3 1 0 0; vector3 (-1) 0 0;
          vector3 0 0 1; vector3 0 0 (-1);
          vector3 1 1 0; vector3 1 (-1) 0; vector3 (-1) 1 0; vector3 (-1) (-1) 0;
          vector3 0 1 1; vector3 0 (-1) 1; vector3 0 1 (-1); vector3 0 (-1) (-1);
          vector3 1 0 1; vector3 1 0 (-1); vector3 (-1) 0 1; vector3 (-1) 0 (-1)].
Proof. by vm_compute. Qed.

(** C2: the second component of every returned position is built from
    [this.x].  For the chunk (0, 5, 0) the array holds (1, 1, 1), which
    is no shift of (0, 5, 0) by offsets in {-1, 0, 1}, and misses the
    neighbours (1, 6, 1) and (0, 4, 0); (0, 5, 0) is not in the array of
    the chunk (1, 1, 1), so the relation is not symmetric; and the array
    of the chunk (0, 1, 0) holds (0, 1, 0) itself. *)
Theorem adjacent_positions_reuse_x :
  (∃ l, completionOf getAdjacentChunkPositions (constructor (int 0) (int 5) (int 0))
        = Normal l
        ∧ (vector3 1 1 1 ∈ l) ∧ (vector3 1 6 1 ∉ l) ∧ (vector3 0 4 0 ∉ l))
  ∧ (∃ l, completionOf getAdjacentChunkPositions (constructor (int 1) (int 1) (int 1))
          = Normal l
          ∧ (vector3 0 5 0 ∉ l))
  ∧ (∃ l, completionOf getAdjacentChunkPositions (constructor (int 0) (int 1) (int 0))
          = Normal l
          ∧ (vector3 0 1 0 ∈ l)).
Proof.
  split; [|split]; eexists; (split; [reflexivity|]).
  - split; [|split]; by_compute.
  - by_compute.
  - by_compute.
Qed.

(** * Further properties *)

Section StorageRuns.
Implicit Types (this : NeuralChunk) (neuron : Neuron) (ns : list Neuron).

Lemma addNeuron_succeeded neuron this :
  succeeded (snd (addNeuron neuron this))
  = bool_decide (indexLookup (neurons this) (getPositionAsVector3Int neuron) = None).
Proof.
  destruct (indexLookup (neurons this) (getPositionAsVector3Int neuron))
    as [old|] eqn:Hp.
  - rewrite (addNeuron_occupied _ _ _ Hp). reflexivity.
  - rewrite (addNeuron_free _ _ Hp). reflexivity.
Qed.

Lemma addNeuron_coordinates neuron this :
  x (fst (addNeuron neuron this)) = x this
  ∧ y (fst (addNeuron neuron this)) = y this
  ∧ z (fst (addNeuron neuron this)) = z this.
Proof.
  destruct (indexLookup (neurons this) (getPositionAsVector3Int neuron))
    as [old|] eqn:Hp.
  - rewrite (addNeuron_occupied _ _ _ Hp). by repeat split.
  - rewrite (addNeuron_free _ _ Hp). by repeat split.
Qed.

Lemma addNeurons_rawNeurons ns this :
  rawNeurons (fst (addNeurons ns this)) = rawNeurons this ++ ns.
Proof.
  revert this. induction ns as [|n ns IH]; intros this.
  - cbn. by rewrite app_nil_r.
  - cbn [addNeurons].
    pose proof (addNeuron_rawNeurons n this) as Hn. unfold stateAfter in Hn.
    destruct (addNeuron n this) as [this' c]. specialize (IH this').
    destruct (addNeurons ns this') as [this'' h]. cbn [fst] in *.
    rewrite IH, Hn, <- app_assoc. reflexivity.
Qed.

Lemma addNeurons_coordinates ns this :
  x (fst (addNeurons ns this)) = x this
  ∧ y (fst (addNeurons ns this)) = y this
  ∧ z (fst (addNeurons ns this)) = z this.
Proof.
  revert this. induction ns as [|n ns IH]; intros this; [by repeat split|].
  cbn [addNeurons].
  pose proof (addNeuron_coordinates n this) as Hn.
  destruct (addNeuron n this) as [this' c]. specialize (IH this').
  destruct (addNeurons ns this') as [this'' h]. cbn [fst] in *.
  destruct IH as (-> & -> & ->). exact Hn.
Qed.

Lemma addNeurons_first_wins ns this p :
  indexLookup (neurons (fst (addNeurons ns this))) p
  = match indexLookup (neurons this) p with
    | Some n => Some n
    | None => firstAt p ns
    end.
Proof.
  revert this. induction ns as [|n ns IH]; intros this.
  - cbn. by destruct (indexLookup _ _).
  - cbn [addNeurons].
    pose proof (addNeuron_indexLookup n this p) as Hstep.
    pose proof (addNeuron_succeeded n this) as Hsucc.
    destruct (addNeuron n this) as [this' c]. specialize (IH this').
    destruct (addNeurons ns this') as [this'' h]. cbn [fst snd] in *.
    rewrite IH, Hstep, Hsucc. unfold firstAt. cbn [List.find].
    destruct (decide (getPositionAsVector3Int n = p)) as [<-|Hne].
    + rewrite (bool_decide_eq_true_2 (getPositionAsVector3Int n = getPositionAsVector3Int n)) by reflexivity.
      destruct (indexLookup (neurons this) (getPositionAsVector3Int n)) as [m|];
        reflexivity.
    + rewrite (bool_decide_eq_false_2 (getPositionAsVector3Int n = p)) by exact Hne.
      rewrite andb_false_r. reflexivity.
Qed.

Lemma firstAt_None p ns :
  firstAt p ns = None ↔ p ∉ map getPositionAsVector3Int ns.
Proof.
  unfold firstAt. induction ns as [|n ns IH]; cbn [List.find map].
  - split; [intros _; apply not_elem_of_nil|reflexivity].
  - rewrite not_elem_of_cons.
    destruct (decide (getPositionAsVector3Int n = p)) as [<-|Hne].
    + rewrite bool_decide_eq_true_2 by reflexivity.
      split; [discriminate|intros [H _]; by destruct H].
    + rewrite bool_decide_eq_false_2 by exact Hne. rewrite IH.
      split; [intros H; split; [congruence|exact H]|intros [_ H]; exact H].
Qed.
End StorageRuns.

Section StorageExtras.
Implicit Types (this : NeuralChunk) (neuron : Neuron) (ns : list Neuron).

(** X1: [addNeuron] returns exactly when [getNeuronFromPosition] finds
    nothing at the position of the unit; otherwise it throws the
    collision that names that position and leaves the index as it
    was.  It never raises a [TypeError]. *)
Theorem addNeuron_throws_iff_occupied neuron this :
  let p := getPositionAsVector3Int neuron in
  (completionOf (getNeuronFromPosition p) this = Normal None
   ∧ completionOf (addNeuron neuron) this = Normal ())
  ∨ (∃ old, completionOf (getNeuronFromPosition p) this = Normal (Some old)
            ∧ completionOf (addNeuron neuron) this
              = Throw (NeuronCollision (vx p) (vy p) (vz p))
            ∧ neurons (stateAfter (addNeuron neuron) this) = neurons this).
Proof.
  intros p. unfold completionOf, stateAfter.
  rewrite getNeuronFromPosition_lookup. cbn [snd].
  destruct (indexLookup (neurons this) p) as [old|] eqn:Hp.
  - right. exists old. rewrite (addNeuron_occupied _ _ _ Hp). by repeat split.
  - left. rewrite (addNeuron_free _ _ Hp). by split.
Qed.

(** X2: after a call of [addNeuron] that returned, the position of the
    unit answers with the unit, and every other position answers as it
    did before the call. *)
Theorem addNeuron_then_getNeuronFromPosition neuron this position :
  succeeded (completionOf (addNeuron neuron) this) = true →
  completionOf (getNeuronFromPosition position) (stateAfter (addNeuron neuron) this)
  = if decide (position = getPositionAsVector3Int neuron)
    then Normal (Some neuron)
    else completionOf (getNeuronFromPosition position) this.
Proof.
  unfold completionOf, stateAfter. rewrite !getNeuronFromPosition_lookup.
  cbn [snd]. rewrite addNeuron_indexLookup. intros ->. cbn [andb].
  destruct (decide (position = getPositionAsVector3Int neuron)) as [->|Hne].
  - rewrite bool_decide_eq_true_2; reflexivity.
  - rewrite bool_decide_eq_false_2 by congruence. reflexivity.
Qed.

Lemma addNeuron_then_getNeuronFromPosition_witness :
  completionOf (getNeuronFromPosition (vector3 1 2 3)) (stateAfter (addNeuron unitA) origin)
  = Normal (Some unitA)
  ∧ completionOf (getNeuronFromPosition (vector3 0 0 0)) (stateAfter (addNeuron unitA) origin)
    = completionOf (getNeuronFromPosition (vector3 0 0 0)) origin.
Proof.
  split.
  - apply (addNeuron_then_getNeuronFromPosition unitA origin (vector3 1 2 3)).
    reflexivity.
  - apply (addNeuron_then_getNeuronFromPosition unitA origin (vector3 0 0 0)).
    reflexivity.
Defined.

(** X3: on the chunk reached from a fresh one by any run of [addNeuron]
    calls, a position answers with the first unit of the run that has
    it, and with [undefined] when no unit of the run has it. *)
Theorem first_unit_at_position_wins (x0 y0 z0 : Number) ns (position : Vector3Int) :
  let this := fst (addNeurons ns (constructor x0 y0 z0)) in
  getNeuronFromPosition position this = (this, Normal (firstAt position ns)).
Proof.
  intros this. rewrite getNeuronFromPosition_lookup.
  unfold this. rewrite addNeurons_first_wins. reflexivity.
Qed.

(** X4: after any run of [addNeuron] calls on a fresh chunk, a further
    call throws the collision of its position exactly when a unit of
    the run, added or rejected, has that position. *)
Theorem addNeuron_after_run_collides (x0 y0 z0 : Number) ns neuron :
  let p := getPositionAsVector3Int neuron in
  completionOf (addNeuron neuron) (fst (addNeurons ns (constructor x0 y0 z0)))
  = if bool_decide (p ∈ map getPositionAsVector3Int ns)
    then Throw (NeuronCollision (vx p) (vy p) (vz p))
    else Normal ().
Proof.
  intros p. unfold completionOf.
  pose proof (addNeurons_first_wins ns (constructor x0 y0 z0) p) as Hp.
  change (indexLookup (neurons (constructor x0 y0 z0)) p) with (@None Neuron) in Hp.
  destruct (firstAt p ns) as [old|] eqn:Hfirst.
  - rewrite (addNeuron_occupied _ _ _ Hp).
    rewrite bool_decide_eq_true_2; [reflexivity|].
    destruct (decide (p ∈ map getPositionAsVector3Int ns)) as [|Hn]; [done|].
    apply firstAt_None in Hn. congruence.
  - rewrite (addNeuron_free _ _ Hp).
    rewrite bool_decide_eq_false_2; [reflexivity|]. by apply firstAt_None.
Qed.

(** X7: after any run of [addNeuron] calls on a fresh chunk, [toJSON]
    returns an object whose [rawNeurons] is the list of every unit
    passed to [addNeuron], in call order, those of throwing calls
    included; the coordinates of the chunk are not part of it, and the
    chunk is left as it was. *)
Theorem toJSON_lists_every_unit (x0 y0 z0 : Number) ns :
  let this := fst (addNeurons ns (constructor x0 y0 z0)) in
  toJSON this = (this, Normal {| obj_rawNeurons := ns |}).
Proof.
  intros this. unfold toJSON, mbind, Method_bind, getThis, mret, Method_ret.
  unfold this. rewrite addNeurons_rawNeurons. reflexivity.
Qed.

(** X6: on every reachable chunk, a unit found by
    [getNeuronFromPosition] at a position has that position as its own
    and is an element of [rawNeurons]. *)
Theorem reachable_index_units this position n :
  reachable this →
  completionOf (getNeuronFromPosition position) this = Normal (Some n) →
  getPositionAsVector3Int n = position ∧ n ∈ rawNeurons this.
Proof.
  intros Hreach. unfold completionOf. rewrite getNeuronFromPosition_lookup.
  cbn [snd]. intros H. injection H as H.
  destruct (reachable_index_sound this Hreach) as [Hkey Hsub].
  split; [exact (Hkey _ _ H)|]. apply Hsub. exists position. exact H.
Qed.

Lemma reachable_index_units_witness :
  getPositionAsVector3Int unitA = vector3 1 2 3
  ∧ unitA ∈ rawNeurons (stateAfter (addNeuron unitB) (stateAfter (addNeuron unitA) origin)).
Proof.
  apply (reachable_index_units
           (stateAfter (addNeuron unitB) (stateAfter (addNeuron unitA) origin))
           (vector3 1 2 3) unitA).
  - repeat constructor.
  - by vm_compute.
Defined.
End StorageExtras.

Section DistinctRuns.
Implicit Types (this : NeuralChunk) (neuron : Neuron) (ns : list Neuron).

Lemma addNeurons_distinct_invariant ns this :
  chunkInvariant this → indexKeyedByPosition this →
  NoDup (map getPositionAsVector3Int ns) →
  (∀ n, n ∈ ns → indexLookup (neurons this) (getPositionAsVector3Int n) = None) →
  Forall (λ entry, succeeded (snd entry) = true) (snd (addNeurons ns this))
  ∧ chunkInvariant (fst (addNeurons ns this))
  ∧ indexKeyedByPosition (fst (addNeurons ns this)).
Proof.
  revert this. induction ns as [|n ns IH]; intros this Hinv Hkey Hnd Hfree.
  - cbn. split; [constructor|by split].
  - cbn [addNeurons map] in *. apply NoDup_cons in Hnd as [Hn Hnd].
    assert (indexLookup (neurons this) (getPositionAsVector3Int n) = None) as Hp
      by (apply Hfree; left).
    pose proof (addNeuron_returns_keeps_invariant n this Hinv Hkey) as Hkeep.
    pose proof (addNeuron_indexLookup n this) as Hstep.
    unfold completionOf, stateAfter in Hkeep.
    rewrite (addNeuron_free _ _ Hp) in *. cbn [fst snd succeeded] in *.
    destruct (Hkeep eq_refl) as [Hinv' Hkey'].
    set (this' := withNeurons _ _) in *.
    destruct (IH this' Hinv' Hkey' Hnd) as (Hall & Hinv'' & Hkey'').
    { intros m Hm. rewrite Hstep. cbn [andb].
      rewrite bool_decide_eq_false_2.
      - apply Hfree. by right.
      - intros Heq. apply Hn. rewrite Heq. apply list_elem_of_fmap. by exists m. }
    destruct (addNeurons ns this') as [this'' h]. cbn [fst snd] in *.
    split; [|by split]. apply Forall_cons. by split.
Qed.

(** X5: when the units of a run have pairwise distinct positions, every
    call on a fresh chunk returns, [rawNeurons] is the run, index and
    sequence hold the same units with no position twice, and every unit
    is found at its position. *)
Theorem addNeurons_distinct_positions (x0 y0 z0 : Number) ns :
  NoDup (map getPositionAsVector3Int ns) →
  let this := fst (addNeurons ns (constructor x0 y0 z0)) in
  Forall (λ entry, snd entry = Normal ()) (snd (addNeurons ns (constructor x0 y0 z0)))
  ∧ rawNeurons this = ns
  ∧ chunkInvariant this
  ∧ ∀ n, n ∈ ns →
      completionOf (getNeuronFromPosition (getPositionAsVector3Int n)) this
      = Normal (Some n).
Proof.
  intros Hnd this.
  destruct (addNeurons_distinct_invariant ns (constructor x0 y0 z0))
    as (Hall & Hinv & Hkey).
  - split.
    + intros n. split; [intros H; by apply elem_of_nil in H|].
      intros [p H]. discriminate H.
    + apply NoDup_nil. exact I.
  - intros p n H. discriminate H.
  - exact Hnd.
  - intros n _. reflexivity.
  - split; [|split; [|split]].
    + eapply Forall_impl; [exact Hall|]. intros [n c] H. cbn [snd] in *.
      destruct c as [[]|e]; [reflexivity|discriminate H].
    + unfold this. rewrite addNeurons_rawNeurons. reflexivity.
    + exact Hinv.
    + intros n Hn. unfold completionOf. rewrite getNeuronFromPosition_lookup.
      cbn [snd]. f_equal.
      destruct Hinv as [Hsame _].
      assert (n ∈ rawNeurons this) as Hraw.
      { unfold this. rewrite addNeurons_rawNeurons. exact Hn. }
      apply Hsame in Hraw as [p Hp]. fold this in Hkey.
      rewrite (Hkey _ _ Hp). exact Hp.
Qed.

Lemma addNeurons_distinct_positions_witness :
  rawNeurons (fst (addNeurons [unitA; emptyUnit] origin)) = [unitA; emptyUnit]
  ∧ chunkInvariant (fst (addNeurons [unitA; emptyUnit] origin)).
Proof.
  assert (NoDup (map getPositionAsVector3Int [unitA; emptyUnit])) as Hnd
    by (apply (bool_decide_unpack _); vm_compute; exact I).
  pose proof (addNeurons_distinct_positions (int 0) (int 0) (int 0)
                [unitA; emptyUnit] Hnd) as (_ & Hraw & Hinv & _).
  split; [exact Hraw|exact Hinv].
Defined.
End DistinctRuns.

Section EdgeOffsets.

Lemma cons_ext {A : Type} (a b : A) (l l' : list A) : a = b → l = l' → a :: l = b :: l'.
Proof. congruence. Qed.

Lemma mkVector3Int_int_ext (a b c a' b' c' : Z) :
  a = a' → b = b' → c = c' →
  mkVector3Int (int a) (int b) (int c) = mkVector3Int (int a') (int b') (int c').
Proof. congruence. Qed.

Ltac positions_eq :=
  repeat (apply cons_ext; [apply mkVector3Int_int_ext; lia|]); reflexivity.

Lemma gatherEdgeChunks_offsets (f : BoundaryFlags) (kx ky kz : Z) :
  gatherEdgeChunks f (vector3 kx ky kz) [] = map (shiftBy kx ky kz) (offsetsOf f).
Proof.
  destruct f as [[] [] [] [] [] []];
    match goal with
    | |- _ = map _ (offsetsOf ?f0) =>
        let l := eval vm_compute in (offsetsOf f0) in
        replace (offsetsOf f0) with l by (vm_compute; reflexivity)
    end;
    cbv [gatherEdgeChunks vector3 shiftBy push
         isXNearLeftBoundary isXNearRightBoundary isYNearBottomBoundary
         isYNearTopBoundary isZNearBackBoundary isZNearFrontBoundary
         vx vy vz andb app map];
    rewrite ?add_int, ?sub_int; positions_eq.
Qed.

Lemma offsetsOf_sound (f : BoundaryFlags) :
  NoDup (offsetsOf f) ∧ Forall (λ d, d ∈ adjacentOffsets) (offsetsOf f)
  ∧ (length (offsetsOf f) ≤ 13)%nat.
Proof.
  destruct f as [[] [] [] [] [] []];
    (split; [by_compute|split; [by_compute|vm_compute; lia]]).
Qed.

Lemma shiftBy_inj (kx ky kz : Z) : Inj (=) (=) (shiftBy kx ky kz).
Proof.
  intros [[dx dy] dz] [[ex ey] ez] H. unfold shiftBy, vector3 in H.
  pose proof (int_inj _ _ (f_equal vx H)).
  pose proof (int_inj _ _ (f_equal vy H)).
  pose proof (int_inj _ _ (f_equal vz H)).
  repeat f_equal; lia.
Qed.
End EdgeOffsets.

Section EdgeExtras.

Lemma boundaryFlags_integer_point (px py pz worldSize : Z) (chunkSize t : Number) :
  boundaryFlags (vector3 px py pz) (int worldSize) chunkSize t = integerPointFlags t.
Proof.
  unfold boundaryFlags, vector3. cbn [vx vy vz].
  rewrite !coordinateChunkDecimal_int, sub_int. reflexivity.
Qed.

Lemma lt_1_lt_0 (t : Number) : (int 1 <? t)%js = true → (int 0 <? t)%js = true.
Proof.
  destruct t as [q| | |]; try done.
  unfold lt, int. intros H. apply bool_decide_eq_true_1 in H.
  apply bool_decide_eq_true_2. unfold Qclt in *.
  rewrite this_Q2Qc in *. change (inject_Z 0) with 0%Q.
  change (inject_Z 1) with 1%Q in H. lra.
Qed.

Lemma offsetsOf_integerPointFlags (t : Number) :
  offsetsOf (integerPointFlags t)
  = if (int 1 <? t)%js then bothSidesOffsets
    else if (int 0 <? t)%js then lowSideOffsets else [].
Proof.
  unfold integerPointFlags.
  destruct (int 1 <? t)%js eqn:H1.
  - rewrite (lt_1_lt_0 _ H1). by vm_compute.
  - destruct (int 0 <? t)%js; by vm_compute.
Qed.

(** X14: for a point, an offset and a non-zero chunk size that are safe
    integers with safe sums, the result depends on the containing chunk
    and the threshold only, not on where in its cell the point lies:
    nothing unless the threshold exceeds 0, the seven low-side
    neighbours for a threshold in (0, 1], and thirteen fixed neighbours
    above 1. *)
Theorem edge_cases_integer_point (px py pz worldSize chunkSize : Z) (t : Number) :
  chunkSize ≠ 0 →
  safeAddressing px py pz chunkSize worldSize →
  getChunkPositionsFromPointEdgeCases (vector3 px py pz) (int worldSize)
    (int chunkSize) t
  = Normal (map (shiftBy ((px + worldSize) / chunkSize)
                         ((py + worldSize) / chunkSize)
                         ((pz + worldSize) / chunkSize))
              (if (int 1 <? t)%js then bothSidesOffsets
               else if (int 0 <? t)%js then lowSideOffsets else [])).
Proof.
  intros Hc _. unfold getChunkPositionsFromPointEdgeCases.
  rewrite (getChunkPositionFromWorldPosition_int _ _ _ _ _ Hc).
  cbn [mbind Completion_bind mret Completion_ret].
  rewrite boundaryFlags_integer_point, gatherEdgeChunks_offsets.
  rewrite offsetsOf_integerPointFlags. reflexivity.
Qed.

Lemma edge_cases_integer_point_witness :
  getChunkPositionsFromPointEdgeCases (vector3 1 8 15) (int 0) (int 16) (frac 1 5)
  = Normal [vector3 (-1) 0 0; vector3 (-1) (-1) 0; vector3 0 (-1) 0;
            vector3 0 0 (-1); vector3 0 (-1) (-1); vector3 (-1) 0 (-1);
            vector3 (-1) (-1) (-1)].
Proof.
  apply (edge_cases_integer_point 1 8 15 0 16 (frac 1 5)); [lia|].
  unfold safeAddressing, safeInteger, MAX_SAFE_INTEGER. lia.
Defined.

Lemma isDecimal_threshold_not_positive (d t : Number) :
  isDecimal d → (int 0 <? t)%js = false →
  (d <? t)%js = false ∧ ((int 1 - d) <? t)%js = false.
Proof.
  intros Hd Ht. destruct t as [q| | |].
  - apply bool_decide_eq_false_1 in Ht. unfold Qclt in Ht.
    rewrite this_Q2Qc in Ht. change (inject_Z 0) with 0%Q in Ht.
    destruct Hd as [|r H0 H1]; [by split|]. split.
    + apply lt_Fin_false. lra.
    + apply lt_Fin_false. unfold Qcminus, Qcplus, Qcopp.
      rewrite !this_Q2Qc. change (inject_Z 1) with 1%Q. lra.
  - discriminate Ht.
  - destruct Hd; by split.
  - destruct Hd; by split.
Qed.

(** X15: unless [0 < edgeDistanceThreshold] holds (so for a negative
    threshold, for 0, for [-Infinity] and for [NaN]) the returned array
    is empty, for every point, offset and chunk size. *)
Theorem edge_cases_threshold_not_positive
    (point : Vector3Int) (worldSize chunkSize t : Number) :
  (int 0 <? t)%js = false →
  getChunkPositionsFromPointEdgeCases point worldSize chunkSize t = Normal [].
Proof.
  intros Ht. unfold getChunkPositionsFromPointEdgeCases, boundaryFlags,
    coordinateChunkDecimal.
  pose proof (λ n, isDecimal_threshold_not_positive _ t (sub_floor_isDecimal n) Ht)
    as H.
  destruct (H (vx point + worldSize)%js) as [-> ->].
  destruct (H (vy point + worldSize)%js) as [-> ->].
  destruct (H (vz point + worldSize)%js) as [-> ->].
  reflexivity.
Qed.

Lemma edge_cases_threshold_not_positive_witness :
  getChunkPositionsFromPointEdgeCases (vector3 15 15 15) (int 0) (int 16) (frac (-1) 2)
  = Normal []
  ∧ getChunkPositionsFromPointEdgeCases (vector3 15 15 15) (int 0) (int 16) NaN
    = Normal [].
Proof.
  split.
  - apply (edge_cases_threshold_not_positive (vector3 15 15 15) (int 0) (int 16)
             (frac (-1) 2)). reflexivity.
  - apply (edge_cases_threshold_not_positive (vector3 15 15 15) (int 0) (int 16) NaN).
    reflexivity.
Defined.

(** X16: whatever the point, the offset, the chunk size and the
    threshold, when the containing chunk is (kx, ky, kz) and the
    coordinates of its neighbours are safe integers, the returned
    positions are pairwise distinct, at most thirteen, and each is the
    containing chunk shifted by one of the 26 offsets of a neighbour
    (so never the containing chunk itself). *)
Theorem edge_cases_are_distinct_neighbours
    (point : Vector3Int) (worldSize chunkSize t : Number) (kx ky kz : Z) :
  getChunkPositionFromWorldPosition point chunkSize worldSize
  = Normal (vector3 kx ky kz) →
  safeNeighbourhood kx ky kz →
  ∃ l,
    getChunkPositionsFromPointEdgeCases point worldSize chunkSize t = Normal l
    ∧ NoDup l
    ∧ (length l ≤ 13)%nat
    ∧ ∀ v, v ∈ l → ∃ d, d ∈ adjacentOffsets ∧ v = shiftBy kx ky kz d.
Proof.
  intros Hpos _. eexists.
  unfold getChunkPositionsFromPointEdgeCases. rewrite Hpos.
  cbn [mbind Completion_bind mret Completion_ret].
  rewrite gatherEdgeChunks_offsets.
  split; [reflexivity|].
  destruct (offsetsOf_sound (boundaryFlags point worldSize chunkSize t))
    as (Hnd & Hall & Hlen).
  split; [|split].
  - apply (@NoDup_fmap_2 _ _ _ (shiftBy_inj _ _ _)). exact Hnd.
  - rewrite length_map. exact Hlen.
  - intros v Hv. apply list_elem_of_fmap in Hv as [d [-> Hd]].
    exists d. split; [|reflexivity].
    rewrite Forall_forall in Hall. by apply Hall.
Qed.

Lemma edge_cases_are_distinct_neighbours_witness :
  ∃ l,
    getChunkPositionsFromPointEdgeCases
      (mkVector3Int (frac 159 10) (frac 1 20) (int 8)) (int 0) (int 16) (frac 1 5)
    = Normal l
    ∧ NoDup l
    ∧ (length l ≤ 13)%nat
    ∧ ∀ v, v ∈ l → ∃ d, d ∈ adjacentOffsets ∧ v = shiftBy 0 0 0 d.
Proof.
  apply (edge_cases_are_distinct_neighbours
           (mkVector3Int (frac 159 10) (frac 1 20) (int 8)) (int 0) (int 16)
           (frac 1 5) 0 0 0).
  - vm_compute. reflexivity.
  - unfold safeNeighbourhood, safeInteger, MAX_SAFE_INTEGER. lia.
Defined.

(** A point with fractional coordinates: the decimals 0.9, 0.05 and 0
    flag the right, bottom and back boundaries. *)
Example edge_cases_fractional_point :
  getChunkPositionsFromPointEdgeCases
    (mkVector3Int (frac 159 10) (frac 1 20) (int 8)) (int 0) (int 16) (frac 1 5)
  = Normal [vector3 1 0 0; vector3 1 (-1) 0; vector3 0 (-1) 0; vector3 0 0 (-1);
            vector3 0 (-1) (-1); vector3 1 0 (-1); vector3 1 (-1) (-1)].
Proof. by vm_compute. Qed.

End EdgeExtras.

Section MoreExtras.

Lemma getAdjacentChunkPositions_shifts (a b : Z) (y0 : Number) m raw :
  getAdjacentChunkPositions (mkNeuralChunk m raw (int a) y0 (int b))
  = (mkNeuralChunk m raw (int a) y0 (int b),
     Normal (map (shiftBy a a b) adjacentOffsets)).
Proof.
  unfold getAdjacentChunkPositions.
  unfold mbind, Method_bind, getThis, mret, Method_ret, push.
  cbn [fst snd x z app map adjacentOffsets shiftBy].
  rewrite !add_int, !sub_int, !Z.add_0_r. reflexivity.
Qed.

(** X11: for a chunk whose [x] and [z] are integers with safe
    neighbours, whatever its [y] and its contents, the method returns 26
    pairwise distinct positions: (x, x, z) shifted by each of the 26
    offsets, which are exactly the integer positions around (x, x, z).
    For an integer [y] they are the positions around the chunk itself
    exactly when [y] equals [x]. *)
Theorem adjacent_is_neighbourhood_of_x_x_z (a b : Z) (y0 : Number) m raw :
  safeNeighbourhood a a b →
  ∃ l, completionOf getAdjacentChunkPositions (mkNeuralChunk m raw (int a) y0 (int b))
       = Normal l
       ∧ l = map (shiftBy a a b) adjacentOffsets
       ∧ length l = 26%nat
       ∧ NoDup l
       ∧ (∀ p q r, vector3 p q r ∈ l ↔ isNeighbour a a b p q r)
       ∧ ∀ c, y0 = int c →
           ((∀ p q r, vector3 p q r ∈ l ↔ isNeighbour a c b p q r) ↔ c = a).
Proof.
  intros _. eexists. unfold completionOf. rewrite getAdjacentChunkPositions_shifts.
  split; [reflexivity|]. split; [reflexivity|]. split; [reflexivity|].
  destruct adjacentOffsets_all as [Hnd Hall].
  assert (∀ p q r, vector3 p q r ∈ map (shiftBy a a b) adjacentOffsets
                   ↔ isNeighbour a a b p q r) as Hmem.
  { intros p q r. unfold isNeighbour. rewrite list_elem_of_fmap. split.
    - intros [[[dx dy] dz] [Heq Hd]]. apply Hall in Hd as (Hx & Hy & Hz & Hne).
      unfold shiftBy, vector3 in Heq.
      pose proof (int_inj _ _ (f_equal vx Heq)) as Hp.
      pose proof (int_inj _ _ (f_equal vy Heq)) as Hq.
      pose proof (int_inj _ _ (f_equal vz Heq)) as Hr.
      cbn [vx vy vz] in Hp, Hq, Hr. clear Heq. subst p q r.
      repeat split; try lia. intros H. apply Hne. injection H as H1 H2 H3.
      f_equal; [f_equal|]; lia.
    - intros (Hp & Hq & Hr & Hne). exists (p - a, q - a, r - b). split.
      + unfold shiftBy. f_equal; lia.
      + apply Hall. repeat split; try lia. intros H. apply Hne.
        injection H as H1 H2 H3. f_equal; [f_equal|]; lia. }
  split; [|split; [exact Hmem|]].
  - apply (@NoDup_fmap_2 _ _ _ (shiftBy_inj a a b)). exact Hnd.
  - intros c _. split.
    + intros Hown.
      assert (isNeighbour a c b a (a + 1) b) as (_ & Hup & _).
      { apply Hown, Hmem. unfold isNeighbour. repeat split; try lia.
        intros H. injection H as H. lia. }
      assert (isNeighbour a c b a (a - 1) b) as (_ & Hdown & _).
      { apply Hown, Hmem. unfold isNeighbour. repeat split; try lia.
        intros H. injection H as H. lia. }
      lia.
    + intros ->. exact Hmem.
Qed.

Lemma adjacent_is_neighbourhood_of_x_x_z_witness :
  ∃ l, completionOf getAdjacentChunkPositions
         (mkNeuralChunk ∅ [] (int 0) (int 5) (int 0)) = Normal l
       ∧ l = map (shiftBy 0 0 0) adjacentOffsets
       ∧ length l = 26%nat
       ∧ NoDup l
       ∧ (∀ p q r, vector3 p q r ∈ l ↔ isNeighbour 0 0 0 p q r)
       ∧ ∀ c, int 5 = int c →
           ((∀ p q r, vector3 p q r ∈ l ↔ isNeighbour 0 c 0 p q r) ↔ c = 0).
Proof.
  apply (adjacent_is_neighbourhood_of_x_x_z 0 0 (int 5) ∅ []).
  unfold safeNeighbourhood, safeInteger, MAX_SAFE_INTEGER. lia.
Defined.

(** X12: with a chunk size greater than zero, the chunk k covers on each
    axis the world coordinates [k * chunkSize + r - worldSize] for
    [0 ≤ r < chunkSize]: each of them is mapped to k, as long as the
    coordinates, the offset, the chunk size and the sums are safe
    integers. *)
Theorem chunk_cells_tile (kx ky kz rx ry rz chunkSize worldSize : Z) :
  0 ≤ rx < chunkSize → 0 ≤ ry < chunkSize → 0 ≤ rz < chunkSize →
  safeAddressing (kx * chunkSize + rx - worldSize) (ky * chunkSize + ry - worldSize)
    (kz * chunkSize + rz - worldSize) chunkSize worldSize →
  getChunkPositionFromWorldPosition
    (vector3 (kx * chunkSize + rx - worldSize) (ky * chunkSize + ry - worldSize)
       (kz * chunkSize + rz - worldSize))
    (int chunkSize) (int worldSize)
  = Normal (vector3 kx ky kz).
Proof.
  intros Hx Hy Hz _. rewrite getChunkPositionFromWorldPosition_int by lia.
  assert (∀ k r, 0 ≤ r < chunkSize →
            (k * chunkSize + r - worldSize + worldSize) / chunkSize = k) as Hdiv.
  { intros k r Hr. symmetry. apply (Z.div_unique_pos _ chunkSize k r); lia. }
  rewrite !Hdiv by assumption. reflexivity.
Qed.

Lemma chunk_cells_tile_witness :
  getChunkPositionFromWorldPosition (vector3 (-23) 0 47) (int 16) (int 32)
  = Normal (vector3 0 2 4).
Proof.
  apply (chunk_cells_tile 0 2 4 9 0 15 16 32); try lia.
  unfold safeAddressing, safeInteger, MAX_SAFE_INTEGER. lia.
Defined.

Lemma strictEquals_decide (a b : Number) :
  strictEquals a b = bool_decide (a = b) && negb (bool_decide (b = NaN)).
Proof.
  destruct a as [p| | |], b as [q| | |]; try reflexivity.
  cbn [strictEquals]. rewrite (bool_decide_eq_false_2 (Fin q = NaN)) by discriminate.
  by rewrite andb_true_r.
Qed.

Lemma isEqual_spec (this otherChunk : NeuralChunk) :
  isEqual otherChunk this
  = (this,
     Normal (bool_decide (x otherChunk = x this ∧ y otherChunk = y this
                          ∧ z otherChunk = z this)
             && negb (hasNaN this))).
Proof.
  unfold isEqual, mbind, Method_bind, getThis, mret, Method_ret, hasNaN.
  rewrite !strictEquals_decide. do 2 f_equal.
  repeat case_bool_decide; cbn [andb negb]; first [reflexivity | exfalso; tauto].
Qed.

(** X8: [isEqual] leaves the chunk as it was and returns true exactly
    when the three coordinates of the two chunks are equal and none is
    [NaN]; their contents are not compared.  It is symmetric, and a
    chunk equals itself unless one of its coordinates is [NaN]. *)
Theorem isEqual_compares_coordinates (this otherChunk : NeuralChunk) :
  isEqual otherChunk this
  = (this,
     Normal (bool_decide (x otherChunk = x this ∧ y otherChunk = y this
                          ∧ z otherChunk = z this)
             && negb (hasNaN this)))
  ∧ completionOf (isEqual otherChunk) this = completionOf (isEqual this) otherChunk
  ∧ completionOf (isEqual this) this = Normal (negb (hasNaN this)).
Proof.
  split; [apply isEqual_spec|]. unfold completionOf. rewrite !isEqual_spec.
  cbn [snd]. split.
  - f_equal.
    destruct (decide (x otherChunk = x this ∧ y otherChunk = y this
                      ∧ z otherChunk = z this)) as [(Hx & Hy & Hz)|Hne].
    + rewrite !bool_decide_eq_true_2 by (repeat split; congruence).
      unfold hasNaN. rewrite Hx, Hy, Hz. reflexivity.
    + rewrite !bool_decide_eq_false_2; [reflexivity| |exact Hne].
      intros (Hx & Hy & Hz). apply Hne. repeat split; congruence.
  - f_equal. rewrite bool_decide_eq_true_2 by (repeat split; reflexivity).
    reflexivity.
Qed.

(** X10: on every chunk, whatever it holds, [hasEmptyNeurons] returns
    false, throws nothing and leaves the chunk as it was. *)
Theorem hasEmptyNeurons_always_false (this : NeuralChunk) :
  hasEmptyNeurons this = (this, Normal false).
Proof. apply hasEmptyNeurons_false. Qed.
(** X9: a run of [addNeuron] calls, returning or throwing, never
    changes which chunk the receiver is: before and after are equal by
    [isEqual], in both directions, unless a coordinate is [NaN]. *)
Theorem isEqual_after_addNeurons (ns : list Neuron) (this : NeuralChunk) :
  completionOf (isEqual this) (fst (addNeurons ns this)) = Normal (negb (hasNaN this))
  ∧ completionOf (isEqual (fst (addNeurons ns this))) this
    = Normal (negb (hasNaN this)).
Proof.
  destruct (addNeurons_coordinates ns this) as (Hx & Hy & Hz).
  unfold completionOf. rewrite !isEqual_spec. cbn [snd]. unfold hasNaN.
  rewrite Hx, Hy, Hz.
  rewrite !bool_decide_eq_true_2 by (repeat split; reflexivity).
  split; reflexivity.
Qed.



End MoreExtras.
